(** * MCP-Server: the chat client's tool-call turn and the time tracker's
      [add_session]

    A shallow embedding of [client1.py] (tool registry, history rendering,
    the chat turn handler), of [main.py]'s [add_session] and of
    [calculator.py]'s [modulus], with the properties the specification
    states about them.

    Conventions.  Python values are the data type [pyval]; an exception is
    a value of [exn], and a call that may raise returns [exn + A].  The
    language model and the tools are external: they are parameters that
    read and change an abstract [World].  The Streamlit session state
    mutated by a turn is the message list [history]; a Python list mutated
    in place keeps its appended entries when an exception unwinds, so the
    state comes back with the exception. *)

From Stdlib Require Import ZArith String List Lia DecimalString.
From stdpp Require Import base option list strings gmap sorting.

Local Set Warnings "-register-all".
Local Open Scope string_scope.
Local Open Scope list_scope.
Local Open Scope Z_scope.

(** ** Python values and exceptions *)

Module Py.

(** The values exchanged with the model and the tools (the shape of JSON
    data; numbers are kept to the integers). *)
Inductive pyval : Type :=
  | PNone
  | PBool (b : bool)
  | PInt (z : Z)
  | PStr (s : string)
  | PList (items : list pyval)
  | PDict (items : list (string * pyval)).

(** Python truth value: [None], [False], [0], the empty string, the empty
    list and the empty dict are false. *)
Definition truthy (v : pyval) : bool :=
  match v with
  | PNone => false
  | PBool b => b
  | PInt z => negb (z =? 0)
  | PStr s => negb (String.eqb s "")
  | PList items => match items with [] => false | _ => true end
  | PDict items => match items with [] => false | _ => true end
  end.

(** [a or b] *)
Definition py_or (a b : pyval) : pyval := if truthy a then a else b.

Inductive exn : Type :=
  | KeyError (key : string)
  | ValueError (msg : string)
  | TypeError (msg : string)
  | ToolException (msg : string)
  | ModelUnavailable (msg : string)
  | IntegrityError (msg : string).

End Py.

Import Py.

(** ** calculator.py *)

Module Calculator.

(** [modulus(a: int, b: int) -> int]; Python's [%] on integers takes the
    sign of the divisor, as [Z.modulo] does. *)
Definition modulus (a b : Z) : exn + Z :=
  if b =? 0 then inl (ValueError "Modulus by zero is not allowed")
  else inr (a mod b).

End Calculator.

(** ** client1.py *)

Module Client.

(** A requested tool call, the dict [{"name": .., "args": .., "id": ..}].
    [tc_args] is what [tc.get("args")] returns: [PNone] when absent. *)
Record ToolCall : Type := {
  tc_name : string;
  tc_args : pyval;
  tc_id : string
}.

(** The four message classes of [langchain_core.messages] the client uses. *)
Inductive message : Type :=
  | SystemMessage (content : pyval)
  | HumanMessage (content : pyval)
  | AIMessage (content : pyval) (tool_calls : list ToolCall)
  | ToolMessage (tool_call_id : string) (content : pyval).

Definition SYSTEM_PROMPT : string :=
  "You have access to tools. When you choose to call a tool, do not narrate status updates. After tools run, return only a concise final answer.".

(** [st.session_state.history = [SystemMessage(content=SYSTEM_PROMPT)]] *)
Definition initial_history : list message :=
  [SystemMessage (PStr SYSTEM_PROMPT)].

(** *** Rendering (lines 69-80) *)

Inductive role : Type := user | assistant.

(** One chat bubble: [st.chat_message(role)] with [st.markdown(content)]. *)
Record bubble : Type := { b_role : role; b_text : pyval }.

(** The rendering loop, bubbles in the order they are drawn. *)
Fixpoint render (history : list message) : list bubble :=
  match history with
  | [] => []
  | msg :: rest =>
      match msg with
      | HumanMessage content =>
          {| b_role := user; b_text := content |} :: render rest
      | AIMessage content tool_calls =>
          match tool_calls with
          | _ :: _ => render rest                     (* continue *)
          | [] => {| b_role := assistant; b_text := content |} :: render rest
          end
      | _ => render rest
      end
  end.

Section WithWorld.

(** Whatever the model endpoint and the tool servers read and change. *)
Context {World : Type}.

(** An awaited external call: it returns or raises, and changes the world. *)
Definition external (A : Type) : Type := World → (exn + A) * World.

(** A tool as [client.get_tools()] hands it over. *)
Record tool : Type := {
  name : string;
  ainvoke : pyval → external pyval
}.

(** *** The registry (line 60)

    [{t.name: t for t in tools}]: the comprehension stores the tools one
    after the other, a later store under a name replacing the earlier one. *)
Definition tool_by_name (tools : list tool) : gmap string tool :=
  foldl (λ m t, <[name t := t]> m) ∅ tools.

(** *** The turn handler (lines 82-125) *)

(** What [llm.ainvoke] returns: an assistant message, of which the handler
    reads [content] and [tool_calls]. *)
Record reply : Type := {
  content : pyval;
  tool_calls : list ToolCall
}.

(** The reply stored as it came: [history.append(first)]. *)
Definition as_message (r : reply) : message :=
  AIMessage (content r) (tool_calls r).

(** What a turn reads and changes: the outside world and
    [st.session_state.history]. *)
Record state : Type := {
  world : World;
  history : list message
}.

(** Statements of the handler: they return or raise, and the state they
    leave is there in both cases. *)
Definition M (A : Type) : Type := state → (exn + A) * state.

Definition ret {A} (a : A) : M A := λ s, (inr a, s).

Definition bind {A B} (m : M A) (k : A → M B) : M B :=
  λ s, match m s with
       | (inr a, s') => k a s'
       | (inl e, s') => (inl e, s')
       end.

(** A pure library call that may raise. *)
Definition lift {A} (r : exn + A) : M A := λ s, (r, s).

(** [asyncio.run(c)] for an external call [c]. *)
Definition await {A} (c : external A) : M A :=
  λ s, let '(r, w) := c (world s) in
       (r, {| world := w; history := history s |}).

Definition read_history : M (list message) := λ s, (inr (history s), s).

(** [history.append(msg)] *)
Definition append (msg : message) : M unit :=
  λ s, (inr tt, {| world := world s; history := history s ++ [msg] |}).

(** [history.extend(msgs)] *)
Definition extend (msgs : list message) : M unit :=
  λ s, (inr tt, {| world := world s; history := history s ++ msgs |}).

Notation "x <~ m ;; k" := (bind m (λ x, k))
  (at level 100, m at next level, right associativity).
Notation "m ;;; k" := (bind m (λ _, k))
  (at level 100, right associativity).

(** The session: the two model handles, the registry, and the two
    [json] functions the handler calls. *)
Context (llm llm_with_tools : list message → external reply).
Context (registry : gmap string tool).
Context (json_loads : string → option pyval).
Context (json_dumps : pyval → exn + string).

(** Lines 109-114: [args = tc.get("args") or {}], then a string is replaced
    by its parse, or kept when [json.loads] raises. *)
Definition prepare_args (raw : pyval) : pyval :=
  let args := py_or raw (PDict []) in
  match args with
  | PStr s =>
      match json_loads s with
      | Some parsed => parsed
      | None => args
      end
  | _ => args
  end.

(** [registry[name]] *)
Definition getitem (n : string) : exn + tool :=
  match registry !! n with
  | Some t => inr t
  | None => inl (KeyError n)
  end.

(** One iteration of the loop of lines 107-117: the message it appends to
    [tool_msgs]. *)
Definition run_tool (tc : ToolCall) : M message :=
  let args := prepare_args (tc_args tc) in
  t <~ lift (getitem (tc_name tc));;
  res <~ await (ainvoke t args);;
  dumped <~ lift (json_dumps res);;
  ret (ToolMessage (tc_id tc) (PStr dumped)).

(** [for tc in tool_calls: ...], with the local list [tool_msgs]. *)
Fixpoint run_tools (tcs : list ToolCall) (tool_msgs : list message)
  : M (list message) :=
  match tcs with
  | [] => ret tool_msgs
  | tc :: rest =>
      msg <~ run_tool tc;;
      run_tools rest (tool_msgs ++ [msg])
  end.

(** The body of [if user_text:].  The bubbles drawn on the way are not
    part of the state. *)
Definition chat_turn (user_text : string) : M unit :=
  if truthy (PStr user_text) then
    append (HumanMessage (PStr user_text));;;
    h <~ read_history;;
    first <~ await (llm_with_tools h);;
    match tool_calls first with
    | [] =>
        append (as_message first)
    | _ :: _ =>
        append (as_message first);;;
        tool_msgs <~ run_tools (tool_calls first) [];;
        extend tool_msgs;;;
        h <~ read_history;;
        final <~ await (llm h);;
        append (AIMessage (py_or (content final) (PStr "")) [])
    end
  else ret tt.

End WithWorld.

Arguments tool : clear implicits.
Arguments external : clear implicits.
Arguments state : clear implicits.
Arguments M : clear implicits.

(** *** Notions used to state the properties *)

(** The tools of a sequence that bear a given name, in sequence order. *)
Definition named {World} (n : string) (tools : list (tool World))
  : list (tool World) :=
  filter (λ t, name t = n) tools.

(** A tool message answers a request when it carries the request's id. *)
Definition answers (tc : ToolCall) (msg : message) : Prop :=
  ∃ c, msg = ToolMessage (tc_id tc) c.

(** The ids of the tool messages of a history, in order. *)
Definition tool_message_ids (h : list message) : list string :=
  omap (λ msg, match msg with ToolMessage i _ => Some i | _ => None end) h.

(** A statement grows the history when the history it leaves, returning or
    raising, starts with the history it found. *)
Definition grows {World A} (m : M World A) : Prop :=
  ∀ s, history s `prefix_of` history (snd (m s)).

(** *** A concrete session

    The world is the list of the invocations the tool server has seen, the
    registry holds one tool serving [calculator.py]'s [modulus], and the
    model's replies are fixed in advance. *)

Definition invocations : Type := list (string * pyval).

(** [args[k]] for an integer argument of a dict. *)
Fixpoint int_arg (k : string) (items : list (string * pyval)) : option Z :=
  match items with
  | [] => None
  | (k', v) :: rest =>
      if String.eqb k k' then match v with PInt z => Some z | _ => None end
      else int_arg k rest
  end.

(** The tool [modulus] as the client sees it: the server records the
    invocation; arguments that are not two integers [a] and [b] are
    refused, and an error of the server reaches the client as an exception
    carrying the server's message. *)
Definition modulus_tool : tool invocations := {|
  name := "modulus";
  ainvoke args w :=
    let w' := w ++ [("modulus", args)] in
    match args with
    | PDict items =>
        match int_arg "a" items, int_arg "b" items with
        | Some a, Some b =>
            match Calculator.modulus a b with
            | inr r => (inr (PInt r), w')
            | inl (ValueError msg) => (inl (ToolException msg), w')
            | inl e => (inl e, w')
            end
        | _, _ => (inl (ToolException "invalid arguments"), w')
        end
    | _ => (inl (ToolException "invalid arguments"), w')
    end
|}.

(** [json.dumps] on [None], booleans and integers, the only values the
    session below serialises. *)
Definition dumps_scalar (v : pyval) : exn + string :=
  match v with
  | PNone => inr "null"
  | PBool true => inr "true"
  | PBool false => inr "false"
  | PInt z => inr (NilZero.string_of_int (Z.to_int z))
  | _ => inl (TypeError "value outside the serialised fragment")
  end.

(** [json.loads] on the two texts the session below parses: the empty
    object, and a text that is not JSON. *)
Definition loads_object (text : string) : option pyval :=
  if String.eqb text "{}" then Some (PDict []) else None.

(** A model that answers every history with the same reply. *)
Definition replies (r : reply) : list message → external invocations reply :=
  λ _ w, (inr r, w).

(** A model whose endpoint cannot be reached. *)
Definition unreachable : list message → external invocations reply :=
  λ _ w, (inl (ModelUnavailable "connection error"), w).

Definition mod_call (id : string) (a b : Z) : ToolCall :=
  {| tc_name := "modulus";
     tc_args := PDict [("a", PInt a); ("b", PInt b)];
     tc_id := id |}.

Definition moon_call (id : string) : ToolCall :=
  {| tc_name := "fly_to_moon"; tc_args := PDict []; tc_id := id |}.

Definition asks (calls : list ToolCall) : reply :=
  {| content := PStr ""; tool_calls := calls |}.

Definition says (text : string) : reply :=
  {| content := PStr text; tool_calls := [] |}.

(** The session at start-up. *)
Definition fresh : state invocations :=
  {| world := []; history := initial_history |}.

(** A turn of the concrete session, for the model of the final answer and
    the model bound to the tools. *)
Definition session_turn
    (llm llm_with_tools : list message → external invocations reply)
  : string → M invocations unit :=
  chat_turn llm llm_with_tools (tool_by_name [modulus_tool])
    loads_object dumps_scalar.

Definition two_mods : list ToolCall := [mod_call "a" 7 3; mod_call "b" 8 4].

(** The history once the question and a first reply asking for [calls]
    are stored. *)
Definition asked (question : string) (calls : list ToolCall) : list message :=
  initial_history ++ [HumanMessage (PStr question); as_message (asks calls)].

(** A second reply that has no content and asks for a tool again. *)
Definition asks_again : reply :=
  {| content := PNone; tool_calls := [moon_call "z"] |}.

(** A request whose arguments came as a string. *)
Definition text_call (text : string) : ToolCall :=
  {| tc_name := "modulus"; tc_args := PStr text; tc_id := "a" |}.

(** *** The pairing of requests and results in a history

    Reading a history from its start while keeping the ids of the tool
    calls that still await their tool message: a tool message must carry
    the first awaited id, and any other message must find nothing awaited;
    an assistant message then awaits the ids of its calls.  The reading
    fails ([None]) at the first message that breaks this. *)
Fixpoint scan (pending : list string) (h : list message)
  : option (list string) :=
  match h with
  | [] => Some pending
  | ToolMessage i _ :: rest =>
      match pending with
      | p :: ps => if String.eqb i p then scan ps rest else None
      | [] => None
      end
  | msg :: rest =>
      match pending with
      | [] =>
          scan (match msg with
                | AIMessage _ calls => map tc_id calls
                | _ => []
                end) rest
      | _ :: _ => None
      end
  end.

(** A history is paired when its reading succeeds and awaits nothing. *)
Definition paired (h : list message) : bool :=
  match scan [] h with
  | Some [] => true
  | _ => false
  end.

(** *** The ways a turn ends

    For the text [u] of the user and the history [before] the turn: the
    result of the turn and the history it leaves. *)
Inductive turn_end (u : string) (before : list message)
  : exn + unit → list message → Prop :=
  | first_call_raised e :
      turn_end u before (inl e) (before ++ [HumanMessage (PStr u)])
  | answered_directly c :
      turn_end u before (inr tt)
        (before ++ [HumanMessage (PStr u); AIMessage c []])
  | tool_loop_raised e c calls :
      calls ≠ [] →
      turn_end u before (inl e)
        (before ++ [HumanMessage (PStr u); AIMessage c calls])
  | second_call_raised e c calls msgs :
      calls ≠ [] →
      Forall2 answers calls msgs →
      turn_end u before (inl e)
        (before ++ [HumanMessage (PStr u); AIMessage c calls] ++ msgs)
  | answered_after_tools c calls msgs c' :
      calls ≠ [] →
      Forall2 answers calls msgs →
      turn_end u before (inr tt)
        (before ++ [HumanMessage (PStr u); AIMessage c calls] ++ msgs
                ++ [AIMessage c' []]).

End Client.

(** ** main.py: the time tracker's [add_session] *)

Module Tracker.

(** The rows of the three tables created by [init_db]. *)
Record category_row : Type := {
  cat_id : Z;
  cat_name : string;
  cat_color : string;
  cat_created_at : string
}.

Record session_row : Type := {
  ses_id : Z;
  ses_activity : string;
  ses_minutes : Z;
  ses_category_id : Z;
  ses_date : string;
  ses_created_at : string
}.

Record note_row : Type := {
  note_id : Z;
  note_session_id : Z;
  note_content : string;
  note_created_at : string
}.

(** The database file: the tables in row order, and for each
    [AUTOINCREMENT] key the largest id handed out so far. *)
Record database : Type := {
  categories : list category_row;
  sessions : list session_row;
  notes : list note_row;
  last_category_id : Z;
  last_session_id : Z;
  last_note_id : Z
}.

(** What the call reads from the clock: [date.today().isoformat()] and
    SQLite's [CURRENT_TIMESTAMP]. *)
Record clock : Type := {
  today : string;
  now : string
}.

(** The values of the returned dict.  [VHours m] stands for the float
    [round(m / 60, 2)]. *)
Inductive value : Type :=
  | VInt (z : Z)
  | VStr (s : string)
  | VHours (minutes : Z).

Definition dict : Type := list (string * value).

(** [str(e)] *)
Definition str (e : exn) : string :=
  match e with
  | KeyError m | ValueError m | TypeError m | ToolException m
  | ModelUnavailable m | IntegrityError m => m
  end.

(** [SELECT id FROM categories WHERE name = ?] with [fetchone()] *)
Definition select_category_id (category : string) (db : database) : option Z :=
  cat_id <$> find (λ row, String.eqb (cat_name row) category) (categories db).

(** [INSERT INTO sessions (activity, minutes, category_id, session_date)],
    under the table's [CHECK (minutes > 0)]; returns [lastrowid]. *)
Definition insert_session (clk : clock) (activity : string) (minutes : Z)
    (category_id : Z) (session_date : string) (db : database)
  : exn + Z * database :=
  if minutes >? 0 then
    let id := last_session_id db + 1 in
    inr (id,
         {| categories := categories db;
            sessions :=
              sessions db
              ++ [{| ses_id := id; ses_activity := activity;
                     ses_minutes := minutes; ses_category_id := category_id;
                     ses_date := session_date; ses_created_at := now clk |}];
            notes := notes db;
            last_category_id := last_category_id db;
            last_session_id := id;
            last_note_id := last_note_id db |})
  else inl (IntegrityError "CHECK constraint failed: minutes > 0").

(** [INSERT INTO notes (session_id, content)] *)
Definition insert_note (clk : clock) (session_id : Z) (content : string)
    (db : database) : database :=
  let id := last_note_id db + 1 in
  {| categories := categories db;
     sessions := sessions db;
     notes :=
       notes db
       ++ [{| note_id := id; note_session_id := session_id;
              note_content := content; note_created_at := now clk |}];
     last_category_id := last_category_id db;
     last_session_id := last_session_id db;
     last_note_id := id |}.

Definition error (message : string) : dict :=
  [("status", VStr "error"); ("message", VStr message)].

(** [add_session]: the returned dict and the database the call leaves.  A
    [with] block left by an exception rolls back, so the [except] branch
    answers with the database as it was. *)
Definition add_session (clk : clock) (activity : string) (minutes : Z)
    (category : string) (session_date : option string) (note : string)
    (db : database) : dict * database :=
  if minutes <=? 0 then
    (error "Minutes must be positive", db)
  else
    let session_date :=
      match session_date with
      | None => today clk
      | Some d => d
      end in
    match select_category_id category db with
    | None =>
        (error ("Category '" +:+ category
                +:+ "' not found. Use add_category() first."), db)
    | Some category_id =>
        match insert_session clk activity minutes category_id session_date db with
        | inl e => (error (str e), db)
        | inr (session_id, db1) =>
            let db2 :=
              if String.eqb note "" then db1
              else insert_note clk session_id note db1 in
            ([("status", VStr "success");
              ("id", VInt session_id);
              ("activity", VStr activity);
              ("minutes", VInt minutes);
              ("hours", VHours minutes);
              ("category", VStr category);
              ("date", VStr session_date)],
             db2)
        end
    end.

(** The categories [init_db] stores in an empty database. *)
Definition default_categories : list (string * string) :=
  [("Work", "#3B82F6"); ("Study", "#8B5CF6"); ("Exercise", "#10B981");
   ("Reading", "#F59E0B"); ("Creative", "#EC4899"); ("Social", "#06B6D4");
   ("Other", "#6B7280")].

(** [INSERT INTO categories (name, color)], for a name not yet stored. *)
Definition insert_category (clk : clock) (db : database) (nc : string * string)
  : database :=
  let id := last_category_id db + 1 in
  {| categories :=
       categories db
       ++ [{| cat_id := id; cat_name := fst nc; cat_color := snd nc;
              cat_created_at := now clk |}];
     sessions := sessions db;
     notes := notes db;
     last_category_id := id;
     last_session_id := last_session_id db;
     last_note_id := last_note_id db |}.

(** [init_db] on a file that does not exist yet. *)
Definition init_db (clk : clock) : database :=
  foldl (insert_category clk)
    {| categories := []; sessions := []; notes := [];
       last_category_id := 0; last_session_id := 0; last_note_id := 0 |}
    default_categories.

Definition noon : clock :=
  {| today := "2026-01-05"; now := "2026-01-05 12:00:00" |}.

(** *** The other tools of the tracker *)

(** [str(n)] for an integer, as an f-string prints it. *)
Definition show (z : Z) : string := NilZero.string_of_int (Z.to_int z).

(** The value stored under a key of a dict. *)
Fixpoint field (key : string) (d : dict) : option value :=
  match d with
  | [] => None
  | (k, v) :: rest => if String.eqb k key then Some v else field key rest
  end.

(** [init_db] on a file in any state: the tables are there
    ([CREATE TABLE IF NOT EXISTS]) and the default categories are stored
    only when the categories table has no row. *)
Definition init_db_on (clk : clock) (db : database) : database :=
  if (Z.of_nat (length (categories db)) =? 0)
  then foldl (insert_category clk) db default_categories
  else db.

(** [INSERT INTO categories (name, color)] under the column's [UNIQUE];
    returns [lastrowid]. *)
Definition execute_insert_category (clk : clock) (name color : string)
    (db : database) : exn + Z * database :=
  if existsb (λ row, String.eqb (cat_name row) name) (categories db)
  then inl (IntegrityError "UNIQUE constraint failed: categories.name")
  else
    let db' := insert_category clk db (name, color) in
    inr (last_category_id db', db').

(** [add_category]; [color] is [None] when the argument is left out. *)
Definition add_category (clk : clock) (name : string) (color : option string)
    (db : database) : dict * database :=
  let color :=
    match color with
    | None => "#6B7280"
    | Some c => c
    end in
  match execute_insert_category clk name color db with
  | inr (id, db') =>
      ([("status", VStr "success");
        ("id", VInt id);
        ("message", VStr ("Category '" +:+ name +:+ "' added"))],
       db')
  | inl _ =>
      (error ("Category '" +:+ name +:+ "' already exists"), db)
  end.

(** One row of [list_categories]. *)
Definition category_dict (row : category_row) : dict :=
  [("id", VInt (cat_id row));
   ("name", VStr (cat_name row));
   ("color", VStr (cat_color row));
   ("created_at", VStr (cat_created_at row))].

(** [ORDER BY name ASC]: texts are compared byte by byte. *)
Definition name_le (r1 r2 : category_row) : Prop :=
  String.leb (cat_name r1) (cat_name r2) = true.

#[export] Instance name_le_dec r1 r2 : Decision (name_le r1 r2) :=
  bool_eq_dec _ _.

(** [list_categories] *)
Definition list_categories (db : database) : list dict :=
  category_dict <$> merge_sort name_le (categories db).

(** [SELECT id FROM sessions WHERE id = ?] with [fetchone()], keeping the
    whole row. *)
Definition find_session (session_id : Z) (db : database) : option session_row :=
  find (λ row, ses_id row =? session_id) (sessions db).

(** One element of [updates] with its parameter. *)
Inductive assignment : Type :=
  | set_activity (v : string)
  | set_minutes (v : Z)
  | set_category_id (v : Z)
  | set_session_date (v : string).

Definition assign (row : session_row) (a : assignment) : session_row :=
  match a with
  | set_activity v =>
      {| ses_id := ses_id row; ses_activity := v;
         ses_minutes := ses_minutes row;
         ses_category_id := ses_category_id row;
         ses_date := ses_date row; ses_created_at := ses_created_at row |}
  | set_minutes v =>
      {| ses_id := ses_id row; ses_activity := ses_activity row;
         ses_minutes := v;
         ses_category_id := ses_category_id row;
         ses_date := ses_date row; ses_created_at := ses_created_at row |}
  | set_category_id v =>
      {| ses_id := ses_id row; ses_activity := ses_activity row;
         ses_minutes := ses_minutes row;
         ses_category_id := v;
         ses_date := ses_date row; ses_created_at := ses_created_at row |}
  | set_session_date v =>
      {| ses_id := ses_id row; ses_activity := ses_activity row;
         ses_minutes := ses_minutes row;
         ses_category_id := ses_category_id row;
         ses_date := v; ses_created_at := ses_created_at row |}
  end.

(** Lines 232-259 of [update_session]: the list [updates], or the message
    of the error that ends the call. *)
Definition build_updates (activity : option string) (minutes : option Z)
    (category session_date : option string) (db : database)
  : string + list assignment :=
  let updates :=
    match activity with
    | Some v => [set_activity v]
    | None => []
    end in
  match
    match minutes with
    | Some m =>
        if m <=? 0 then inl "Minutes must be positive"
        else inr (updates ++ [set_minutes m])
    | None => inr updates
    end
  with
  | inl message => inl message
  | inr updates =>
      match
        match category with
        | Some name =>
            match select_category_id name db with
            | None => inl ("Category '" +:+ name +:+ "' not found")
            | Some id => inr (updates ++ [set_category_id id])
            end
        | None => inr updates
        end
      with
      | inl message => inl message
      | inr updates =>
          let updates :=
            match session_date with
            | Some v => updates ++ [set_session_date v]
            | None => updates
            end in
          match updates with
          | [] => inl "No updates provided"
          | _ :: _ => inr updates
          end
      end
  end.

(** [UPDATE sessions SET ... WHERE id = ?], under the table's
    [CHECK (minutes > 0)]. *)
Definition execute_update (updates : list assignment) (session_id : Z)
    (db : database) : exn + database :=
  let updated row :=
    if ses_id row =? session_id then foldl assign row updates else row in
  if forallb (λ row, implb (ses_id row =? session_id)
                       (ses_minutes (updated row) >? 0))
       (sessions db)
  then
    inr {| categories := categories db;
           sessions := updated <$> sessions db;
           notes := notes db;
           last_category_id := last_category_id db;
           last_session_id := last_session_id db;
           last_note_id := last_note_id db |}
  else inl (IntegrityError "CHECK constraint failed: minutes > 0").

(** [update_session]; an argument is [None] when it is left out. *)
Definition update_session (session_id : Z) (activity : option string)
    (minutes : option Z) (category session_date : option string)
    (db : database) : dict * database :=
  match find_session session_id db with
  | None => (error ("Session " +:+ show session_id +:+ " not found"), db)
  | Some _ =>
      match build_updates activity minutes category session_date db with
      | inl message => (error message, db)
      | inr updates =>
          match execute_update updates session_id db with
          | inl e => (error (str e), db)
          | inr db' =>
              ([("status", VStr "success");
                ("id", VInt session_id);
                ("message", VStr "Session updated")],
               db')
          end
      end
  end.

(** [delete_session].  SQLite applies [ON DELETE CASCADE] only on a
    connection whose [foreign_keys] setting is on; the module never sets
    it, so it is the setting the library was built with, a parameter
    here. *)
Definition delete_session (foreign_keys : bool) (session_id : Z)
    (db : database) : dict * database :=
  let rowcount :=
    length (filter (λ row, ses_id row = session_id) (sessions db)) in
  if (Z.of_nat rowcount =? 0)
  then (error ("Session " +:+ show session_id +:+ " not found"), db)
  else
    ([("status", VStr "success");
      ("message", VStr ("Session " +:+ show session_id +:+ " deleted"))],
     {| categories := categories db;
        sessions := filter (λ row, ses_id row ≠ session_id) (sessions db);
        notes :=
          if foreign_keys
          then filter (λ row, note_session_id row ≠ session_id) (notes db)
          else notes db;
        last_category_id := last_category_id db;
        last_session_id := last_session_id db;
        last_note_id := last_note_id db |}).

(** [add_note] *)
Definition add_note (clk : clock) (session_id : Z) (content : string)
    (db : database) : dict * database :=
  match find_session session_id db with
  | None => (error ("Session " +:+ show session_id +:+ " not found"), db)
  | Some _ =>
      let db' := insert_note clk session_id content db in
      ([("status", VStr "success");
        ("id", VInt (last_note_id db'));
        ("message", VStr "Note added")],
       db')
  end.

(** *** Sequences of calls *)

(** A call of one of the tools that write the database. *)
Inductive call : Type :=
  | AddCategory (name : string) (color : option string)
  | AddSession (activity : string) (minutes : Z) (category : string)
      (session_date : option string) (note : string)
  | UpdateSession (session_id : Z) (activity : option string)
      (minutes : option Z) (category session_date : option string)
  | DeleteSession (session_id : Z)
  | AddNote (session_id : Z) (content : string).

Definition serve (foreign_keys : bool) (clk : clock) (c : call)
    (db : database) : dict * database :=
  match c with
  | AddCategory name color => add_category clk name color db
  | AddSession activity minutes category session_date note =>
      add_session clk activity minutes category session_date note db
  | UpdateSession session_id activity minutes category session_date =>
      update_session session_id activity minutes category session_date db
  | DeleteSession session_id => delete_session foreign_keys session_id db
  | AddNote session_id content => add_note clk session_id content db
  end.

(** The database after a sequence of calls, each at its own time. *)
Definition serve_all (foreign_keys : bool) (calls : list (clock * call))
    (db : database) : database :=
  foldl (λ db tc, snd (serve foreign_keys (fst tc) (snd tc) db)) db calls.

(** What the tables keep: ids are not above the last id handed out and are
    different from one another, category names are different from one
    another, minutes are positive, every session bears the id of a stored
    category, and every note bears a session id that was handed out. *)
Record consistent (db : database) : Prop := {
  category_ids_issued :
    Forall (λ row, cat_id row ≤ last_category_id db) (categories db);
  category_ids_distinct : NoDup (cat_id <$> categories db);
  category_names_distinct : NoDup (cat_name <$> categories db);
  session_ids_issued :
    Forall (λ row, ses_id row ≤ last_session_id db) (sessions db);
  session_ids_distinct : NoDup (ses_id <$> sessions db);
  session_minutes_positive :
    Forall (λ row, 0 < ses_minutes row) (sessions db);
  session_categories_stored :
    Forall (λ row, ses_category_id row ∈ cat_id <$> categories db)
      (sessions db);
  note_ids_issued :
    Forall (λ row, note_id row ≤ last_note_id db) (notes db);
  note_ids_distinct : NoDup (note_id <$> notes db);
  note_sessions_issued :
    Forall (λ row, note_session_id row ≤ last_session_id db) (notes db)
}.

(** A file with the three tables and no row. *)
Definition empty_db : database :=
  {| categories := []; sessions := []; notes := [];
     last_category_id := 0; last_session_id := 0; last_note_id := 0 |}.

End Tracker.

(** * Properties *)

(** ** The chat client *)

Module ClientProps.

Import Client.

(** *** The registry *)

Section Registry.
Context {World : Type}.
Implicit Types (t : tool World) (tools : list (tool World)).

Lemma tool_by_name_snoc tools t :
  tool_by_name (tools ++ [t]) = <[name t := t]> (tool_by_name tools).
Proof. unfold tool_by_name. by rewrite foldl_app. Qed.

(** C9. The registry built from a sequence of tools maps every name to the
    last tool of the sequence bearing it, and to nothing when no tool bears
    it: with duplicates the last registered wins.  The registry is a
    function of the sequence, so equal sequences give equal registries. *)
Theorem registry_last_wins tools n :
  tool_by_name tools !! n = last (named n tools).
Proof.
  induction tools as [|t tools IH] using rev_ind; [done|].
  rewrite tool_by_name_snoc. unfold named in *.
  rewrite filter_app, filter_cons, filter_nil.
  destruct (decide (name t = n)) as [<-|Hne].
  - by rewrite lookup_insert_eq, last_snoc.
  - by rewrite lookup_insert_ne, app_nil_r.
Qed.

End Registry.

(** *** The rendering *)

Lemma render_app h1 h2 : render (h1 ++ h2) = render h1 ++ render h2.
Proof.
  induction h1 as [|msg h1 IH]; [done|].
  destruct msg as [c|c|c [|tc tcs]|i c]; simpl; by rewrite ?IH.
Qed.

(** C7. The bubbles drawn for a history are the bubbles of its entries, one
    entry after the other, whatever stands around the entry: a user message
    gives a user bubble, an assistant message without tool calls gives an
    assistant bubble, and an assistant message with tool calls, a tool
    message and a system message give none. *)
Theorem render_view :
  (∀ before msg after,
      render (before ++ msg :: after)
      = render before ++ render [msg] ++ render after)
  ∧ (∀ c, render [HumanMessage c] = [{| b_role := user; b_text := c |}])
  ∧ (∀ c, render [AIMessage c []] = [{| b_role := assistant; b_text := c |}])
  ∧ (∀ c tc tcs, render [AIMessage c (tc :: tcs)] = [])
  ∧ (∀ i c, render [ToolMessage i c] = [])
  ∧ (∀ c, render [SystemMessage c] = []).
Proof.
  repeat split; try done.
  intros before msg after.
  change (msg :: after) with ([msg] ++ after).
  by rewrite !render_app.
Qed.

(** *** The turn *)

Section Turn.
Context {World : Type}.
Context (llm llm_with_tools : list message → external World reply).
Context (registry : gmap string (tool World)).
Context (json_loads : string → option pyval).
Context (json_dumps : pyval → exn + string).

Abbreviation turn := (chat_turn llm llm_with_tools registry json_loads json_dumps).
Abbreviation tool_step := (run_tool registry json_loads json_dumps).
Abbreviation tool_loop := (run_tools registry json_loads json_dumps).

Implicit Types (s : state World) (tc : ToolCall) (tcs : list ToolCall).
Implicit Types (msgs : list message) (u : string).

Lemma truthy_text u : u ≠ "" → truthy (PStr u) = true.
Proof. intros Hu. simpl. by destruct (String.eqb_spec u ""). Qed.

(** The loop reads and writes the world only. *)
Lemma run_tool_history tc s : history (snd (tool_step tc s)) = history s.
Proof.
  unfold run_tool, bind, lift, await, ret.
  destruct (getitem registry (tc_name tc)) as [e|t]; [done|].
  destruct (ainvoke t _ (world s)) as [[e|res] w]; [done|]. simpl.
  by destruct (json_dumps res).
Qed.

Lemma run_tools_history tcs msgs s :
  history (snd (tool_loop tcs msgs s)) = history s.
Proof.
  revert msgs s. induction tcs as [|tc tcs IH]; intros msgs s; [done|].
  simpl. unfold bind at 1.
  pose proof (run_tool_history tc s) as Htc.
  destruct (tool_step tc s) as [[e|msg] s1]; [done|].
  rewrite IH. done.
Qed.

Lemma run_tool_inr tc s msg s' :
  tool_step tc s = (inr msg, s') → answers tc msg.
Proof.
  unfold run_tool, bind, lift, await, ret.
  destruct (getitem registry (tc_name tc)) as [e|t]; [done|].
  destruct (ainvoke t _ (world s)) as [[e|res] w]; [done|]. simpl.
  destruct (json_dumps res) as [e|dumped]; [done|].
  intros [= <- <-]. by eexists.
Qed.

Lemma run_tools_inr tcs acc s msgs s' :
  tool_loop tcs acc s = (inr msgs, s') →
  ∃ new, msgs = acc ++ new ∧ Forall2 answers tcs new.
Proof.
  revert acc s. induction tcs as [|tc tcs IH]; intros acc s; simpl.
  - intros [= <- <-]. exists []. by rewrite app_nil_r.
  - unfold bind at 1.
    destruct (tool_step tc s) as [[e|msg] s1] eqn:Htc; [done|].
    intros (new & -> & Hnew)%IH.
    exists (msg :: new). split.
    + by rewrite <- app_assoc.
    + constructor; [by eapply run_tool_inr|done].
Qed.

(** The loop over a batch is the loop over its first calls followed, when
    these all returned, by the loop over the others. *)
Lemma run_tools_app pre post acc s :
  tool_loop (pre ++ post) acc s
  = match tool_loop pre acc s with
    | (inr msgs, s') => tool_loop post msgs s'
    | (inl e, s') => (inl e, s')
    end.
Proof.
  revert acc s. induction pre as [|tc pre IH]; intros acc s; [done|].
  simpl. unfold bind at 1 2.
  destruct (tool_step tc s) as [[e|msg] s1]; [done|]. apply IH.
Qed.

(** The handler in state-passing form. *)
Lemma chat_turn_run u s :
  u ≠ "" →
  turn u s
  = let h1 := history s ++ [HumanMessage (PStr u)] in
    match llm_with_tools h1 (world s) with
    | (inl e, w) => (inl e, {| world := w; history := h1 |})
    | (inr first, w) =>
        let s1 := {| world := w; history := h1 ++ [as_message first] |} in
        match tool_calls first with
        | [] => (inr tt, s1)
        | _ :: _ =>
            match tool_loop (tool_calls first) [] s1 with
            | (inl e, s2) => (inl e, s2)
            | (inr msgs, s2) =>
                let h2 := history s2 ++ msgs in
                match llm h2 (world s2) with
                | (inl e, w') => (inl e, {| world := w'; history := h2 |})
                | (inr final, w') =>
                    (inr tt,
                     {| world := w';
                        history :=
                          h2 ++ [AIMessage (py_or (content final) (PStr "")) []] |})
                end
            end
        end
    end.
Proof.
  intros Hu. unfold chat_turn. rewrite (truthy_text u Hu).
  unfold bind at 1 2 3. unfold append at 1, read_history at 1, await at 1.
  cbn [world history].
  destruct (llm_with_tools _ (world s)) as [[e|first] w]; [done|].
  cbn zeta. destruct (tool_calls first) as [|tc tcs] eqn:Htcs; [done|].
  unfold bind at 1 2. unfold append at 1.
  cbn [world history].
  destruct (tool_loop _ _ _) as [[e|msgs] s2]; [done|].
  unfold bind, extend, read_history, await, append. cbn [world history].
  by destruct (llm _ (world s2)) as [[e|final] w'].
Qed.

(** **** The transcript only grows *)

Lemma grows_ret {A} (a : A) : grows (ret a : M World A).
Proof. by intros s. Qed.

Lemma grows_lift {A} (r : exn + A) : grows (lift r : M World A).
Proof. by intros s. Qed.

Lemma grows_read_history : grows (read_history : M World _).
Proof. by intros s. Qed.

Lemma grows_await {A} (c : external World A) : grows (await c).
Proof. intros s. unfold await. by destruct (c (world s)). Qed.

Lemma grows_append msg : grows (append msg : M World unit).
Proof. intros s. apply prefix_app_r. done. Qed.

Lemma grows_extend msgs : grows (extend msgs : M World unit).
Proof. intros s. apply prefix_app_r. done. Qed.

Lemma grows_bind {A B} (m : M World A) (k : A → M World B) :
  grows m → (∀ a, grows (k a)) → grows (bind m k).
Proof.
  intros Hm Hk s. unfold bind. specialize (Hm s).
  destruct (m s) as [[e|a] s1]; [done|].
  etrans; [exact Hm|]. apply Hk.
Qed.

Lemma grows_run_tools tcs msgs : grows (tool_loop tcs msgs).
Proof. intros s. by rewrite run_tools_history. Qed.

Lemma grows_chat_turn u : grows (turn u).
Proof.
  unfold chat_turn. destruct (truthy (PStr u)); [|apply grows_ret].
  apply grows_bind; [apply grows_append|intros _].
  apply grows_bind; [apply grows_read_history|intros h].
  apply grows_bind; [apply grows_await|intros first].
  destruct (tool_calls first); [apply grows_append|].
  apply grows_bind; [apply grows_append|intros _].
  apply grows_bind; [apply grows_run_tools|intros tool_msgs].
  apply grows_bind; [apply grows_extend|intros _].
  apply grows_bind; [apply grows_read_history|intros h'].
  apply grows_bind; [apply grows_await|intros final].
  apply grows_append.
Qed.

(** C8. The history is append-only.  Each of the two statements that write
    it, [append] and [extend], leaves the old history followed by the new
    entries; a call of the model and the tool loop leave it as it is; and
    a whole turn, whether it returns or raises and wherever it raises,
    leaves a history of which the history before the turn is a prefix. *)
Theorem history_append_only :
  (∀ msg s, history (snd (append msg s)) = history s ++ [msg])
  ∧ (∀ msgs s, history (snd (extend msgs s)) = history s ++ msgs)
  ∧ (∀ h s, history (snd (await (llm_with_tools h) s)) = history s)
  ∧ (∀ h s, history (snd (await (llm h) s)) = history s)
  ∧ (∀ tcs msgs s, history (snd (tool_loop tcs msgs s)) = history s)
  ∧ (∀ u s, history s `prefix_of` history (snd (turn u s))).
Proof.
  split; [done|]. split; [done|].
  split; [intros h s; unfold await; by destruct (llm_with_tools h (world s))|].
  split; [intros h s; unfold await; by destruct (llm h (world s))|].
  split; [apply run_tools_history|].
  intros u. apply grows_chat_turn.
Qed.

(** The handler once the first reply asked for tools: the loop runs on the
    history that ends with that reply, and leaves it as it is. *)
Lemma chat_turn_calls u s first w1 :
  u ≠ "" →
  llm_with_tools (history s ++ [HumanMessage (PStr u)]) (world s)
  = (inr first, w1) →
  tool_calls first ≠ [] →
  let h1 := history s ++ [HumanMessage (PStr u); as_message first] in
  turn u s
  = match tool_loop (tool_calls first) [] {| world := w1; history := h1 |} with
    | (inl e, s2) => (inl e, {| world := world s2; history := h1 |})
    | (inr msgs, s2) =>
        match llm (h1 ++ msgs) (world s2) with
        | (inl e, w') => (inl e, {| world := w'; history := h1 ++ msgs |})
        | (inr final, w') =>
            (inr tt,
             {| world := w';
                history :=
                  h1 ++ msgs ++ [AIMessage (py_or (content final) (PStr "")) []] |})
        end
    end.
Proof.
  intros Hu Hfirst Hcalls h1.
  rewrite chat_turn_run by done. cbn zeta. rewrite Hfirst.
  destruct (tool_calls first) as [|tc tcs] eqn:Htcs; [done|].
  replace ((history s ++ [HumanMessage (PStr u)]) ++ [as_message first])
    with h1 by (subst h1; by rewrite <- app_assoc).
  pose proof (run_tools_history (tc :: tcs) [] {| world := w1; history := h1 |})
    as Hh.
  destruct (tool_loop (tc :: tcs) [] _) as [[e|msgs] s2];
    cbn [snd history] in Hh.
  - destruct s2 as [w2 h2]. cbn [history] in Hh. by rewrite Hh.
  - rewrite Hh. destruct (llm (h1 ++ msgs) (world s2)) as [[e|final] w']; [done|].
    by rewrite <- app_assoc.
Qed.

(** **** Failures of the model *)

(** C4. When the first call of the model raises, the turn raises the same
    exception and the history is the one before the turn followed by the
    user message.  When the second call of the model raises, the turn
    raises the same exception and the history is the one before the turn
    followed by the user message, the first reply and the tool messages.
    In both cases nothing is appended for the call that failed and nothing
    that was there is changed. *)
Theorem model_failure_keeps_transcript u s e w' :
  u ≠ "" →
  (llm_with_tools (history s ++ [HumanMessage (PStr u)]) (world s) = (inl e, w') →
   turn u s
   = (inl e, {| world := w'; history := history s ++ [HumanMessage (PStr u)] |}))
  ∧ (∀ first w1 msgs s2,
       llm_with_tools (history s ++ [HumanMessage (PStr u)]) (world s)
       = (inr first, w1) →
       tool_calls first ≠ [] →
       tool_loop (tool_calls first) []
         {| world := w1;
            history := history s ++ [HumanMessage (PStr u); as_message first] |}
       = (inr msgs, s2) →
       llm ((history s ++ [HumanMessage (PStr u); as_message first]) ++ msgs)
         (world s2)
       = (inl e, w') →
       turn u s
       = (inl e,
          {| world := w';
             history :=
               (history s ++ [HumanMessage (PStr u); as_message first]) ++ msgs |})).
Proof.
  intros Hu. split.
  - intros Hfirst. rewrite chat_turn_run by done. cbn zeta. by rewrite Hfirst.
  - intros first w1 msgs s2 Hfirst Hcalls Hloop Hfinal.
    rewrite (chat_turn_calls u s first w1) by done. cbn zeta.
    by rewrite Hloop, Hfinal.
Qed.

(** **** The final answer *)

(** C5. When a turn reaches the second call of the model and the call
    returns, the turn returns and the entry it appends last is an assistant
    message with the reply's content (the empty string for a content that
    is false) and with no tool calls, whatever tool calls the reply
    carries. *)
Theorem final_answer_has_no_calls u s first w1 msgs s2 final w' :
  u ≠ "" →
  llm_with_tools (history s ++ [HumanMessage (PStr u)]) (world s)
  = (inr first, w1) →
  tool_calls first ≠ [] →
  tool_loop (tool_calls first) []
    {| world := w1;
       history := history s ++ [HumanMessage (PStr u); as_message first] |}
  = (inr msgs, s2) →
  llm ((history s ++ [HumanMessage (PStr u); as_message first]) ++ msgs)
    (world s2)
  = (inr final, w') →
  turn u s
  = (inr tt,
     {| world := w';
        history :=
          (history s ++ [HumanMessage (PStr u); as_message first]) ++ msgs
          ++ [AIMessage (py_or (content final) (PStr "")) []] |}).
Proof.
  intros Hu Hfirst Hcalls Hloop Hfinal.
  rewrite (chat_turn_calls u s first w1) by done. cbn zeta.
  by rewrite Hloop, Hfinal.
Qed.

(** **** The tool loop *)

(** One iteration in state-passing form, for a registered name. *)
Lemma run_tool_run tc t s :
  registry !! tc_name tc = Some t →
  tool_step tc s
  = match ainvoke t (prepare_args json_loads (tc_args tc)) (world s) with
    | (inl e, w) => (inl e, {| world := w; history := history s |})
    | (inr res, w) =>
        match json_dumps res with
        | inl e => (inl e, {| world := w; history := history s |})
        | inr dumped =>
            (inr (ToolMessage (tc_id tc) (PStr dumped)),
             {| world := w; history := history s |})
        end
    end.
Proof.
  intros Ht. unfold run_tool, getitem, bind, lift, await, ret. rewrite Ht.
  destruct (ainvoke t _ (world s)) as [[e|res] w]; [done|].
  by destruct (json_dumps res).
Qed.

Lemma run_tool_missing tc s :
  registry !! tc_name tc = None →
  tool_step tc s = (inl (KeyError (tc_name tc)), s).
Proof. intros Ht. unfold run_tool, getitem, bind, lift. by rewrite Ht. Qed.

(** The loop stops at the first iteration that raises. *)
Lemma run_tools_stops pre tc post acc s msgs s2 e s3 :
  tool_loop pre acc s = (inr msgs, s2) →
  tool_step tc s2 = (inl e, s3) →
  tool_loop (pre ++ tc :: post) acc s = (inl e, s3).
Proof.
  intros Hpre Htc. rewrite run_tools_app, Hpre. simpl. unfold bind.
  by rewrite Htc.
Qed.

(** C1, amended.  In a turn whose first reply carries tool calls and whose
    tool loop runs to its end (every requested name is in the registry,
    every invocation returns, every result is serialised), the entries
    appended after the first reply are one tool message per request, in
    the order of the requests and each with its request's id, followed by
    the final answer when the second call of the model returns and by
    nothing otherwise. *)
Theorem tool_results_follow_requests u s first w1 msgs s2 :
  u ≠ "" →
  llm_with_tools (history s ++ [HumanMessage (PStr u)]) (world s)
  = (inr first, w1) →
  tool_calls first ≠ [] →
  tool_loop (tool_calls first) []
    {| world := w1;
       history := history s ++ [HumanMessage (PStr u); as_message first] |}
  = (inr msgs, s2) →
  Forall2 answers (tool_calls first) msgs
  ∧ ∃ tail,
      history (snd (turn u s))
      = (history s ++ [HumanMessage (PStr u); as_message first]) ++ msgs ++ tail
      ∧ (tail = [] ∨ ∃ c, tail = [AIMessage c []]).
Proof.
  intros Hu Hfirst Hcalls Hloop. split.
  - apply run_tools_inr in Hloop as (new & -> & Hnew). done.
  - rewrite (chat_turn_calls u s first w1) by done. cbn zeta. rewrite Hloop.
    destruct (llm _ (world s2)) as [[e|final] w'].
    + exists []. rewrite app_nil_r. by split; [|left].
    + eexists. split; [done|]. right. by eexists.
Qed.

(** C2, amended.  In a turn whose first reply requests a name that is not
    in the registry, after requests that all ran to their end, the lookup
    raises [KeyError] with that name and the turn raises it: the history
    is the one before the turn followed by the user message and the first
    reply, with no tool message, not even for the requests that ran, and
    with no final answer, and the world is as the requests that ran left
    it. *)
Theorem unknown_tool_aborts_turn u s first w1 pre tc post msgs s2 :
  u ≠ "" →
  llm_with_tools (history s ++ [HumanMessage (PStr u)]) (world s)
  = (inr first, w1) →
  tool_calls first = pre ++ tc :: post →
  tool_loop pre []
    {| world := w1;
       history := history s ++ [HumanMessage (PStr u); as_message first] |}
  = (inr msgs, s2) →
  registry !! tc_name tc = None →
  turn u s
  = (inl (KeyError (tc_name tc)),
     {| world := world s2;
        history := history s ++ [HumanMessage (PStr u); as_message first] |}).
Proof.
  intros Hu Hfirst Hcalls Hpre Hnone.
  rewrite (chat_turn_calls u s first w1); [|done|done|].
  - cbn zeta. rewrite Hcalls.
    by rewrite (run_tools_stops pre tc post _ _ msgs s2 (KeyError (tc_name tc)) s2)
      by (done || by apply run_tool_missing).
  - rewrite Hcalls. by destruct pre.
Qed.

(** C3, amended.  In a turn whose first reply requests a registered tool
    the invocation of which raises, after requests that all ran to their
    end, the turn raises the tool's exception: the history is the one
    before the turn followed by the user message and the first reply, with
    no tool message, not even for the requests that ran, and with no final
    answer, and the world is as the failed invocation left it, so that no
    later request of the batch is run. *)
Theorem tool_failure_aborts_turn u s first w1 pre tc post msgs s2 t e w3 :
  u ≠ "" →
  llm_with_tools (history s ++ [HumanMessage (PStr u)]) (world s)
  = (inr first, w1) →
  tool_calls first = pre ++ tc :: post →
  tool_loop pre []
    {| world := w1;
       history := history s ++ [HumanMessage (PStr u); as_message first] |}
  = (inr msgs, s2) →
  registry !! tc_name tc = Some t →
  ainvoke t (prepare_args json_loads (tc_args tc)) (world s2) = (inl e, w3) →
  turn u s
  = (inl e,
     {| world := w3;
        history := history s ++ [HumanMessage (PStr u); as_message first] |}).
Proof.
  intros Hu Hfirst Hcalls Hpre Ht Hraise.
  rewrite (chat_turn_calls u s first w1); [|done|done|].
  - cbn zeta. rewrite Hcalls.
    rewrite (run_tools_stops pre tc post _ _ msgs s2 e
               {| world := w3; history := history s2 |}); [done|done|].
    by rewrite (run_tool_run tc t s2 Ht), Hraise.
  - rewrite Hcalls. by destruct pre.
Qed.

(** C6, amended.  For a request whose arguments are a string, the value
    passed to the tool is: for the empty string, the empty dict, put in its
    place before the string test; for any other string, the parse of the
    string when [json.loads] returns one and the string itself when
    [json.loads] raises.  The iteration invokes the registered tool with
    that value and with nothing else. *)
Theorem string_args_parsed_or_kept tc raw t s :
  tc_args tc = PStr raw →
  registry !! tc_name tc = Some t →
  let passed :=
    if String.eqb raw "" then PDict []
    else match json_loads raw with
         | Some parsed => parsed
         | None => PStr raw
         end in
  prepare_args json_loads (tc_args tc) = passed
  ∧ tool_step tc s
    = match ainvoke t passed (world s) with
      | (inl e, w) => (inl e, {| world := w; history := history s |})
      | (inr res, w) =>
          match json_dumps res with
          | inl e => (inl e, {| world := w; history := history s |})
          | inr dumped =>
              (inr (ToolMessage (tc_id tc) (PStr dumped)),
               {| world := w; history := history s |})
          end
      end.
Proof.
  intros Hargs Ht passed.
  assert (prepare_args json_loads (tc_args tc) = passed) as Hp.
  { rewrite Hargs. subst passed. unfold prepare_args, py_or. simpl.
    by destruct (String.eqb raw ""). }
  split; [done|]. by rewrite (run_tool_run tc t s Ht), Hp.
Qed.

End Turn.

(** *** The concrete session *)

Example session_two_calls :
  session_turn (replies (says "1 and 0")) (replies (asks [mod_call "a" 7 3; mod_call "b" 8 4]))
    "7 mod 3 and 8 mod 4?" fresh
  = (inr tt,
     {| world := [("modulus", tc_args (mod_call "a" 7 3));
                  ("modulus", tc_args (mod_call "b" 8 4))];
        history :=
          initial_history
          ++ [HumanMessage (PStr "7 mod 3 and 8 mod 4?");
              AIMessage (PStr "") [mod_call "a" 7 3; mod_call "b" 8 4];
              ToolMessage "a" (PStr "1");
              ToolMessage "b" (PStr "0");
              AIMessage (PStr "1 and 0") []] |}).
Proof. vm_compute. reflexivity. Qed.

Lemma tool_results_follow_requests_witness :
  Forall2 answers two_mods [ToolMessage "a" (PStr "1"); ToolMessage "b" (PStr "0")]
  ∧ ∃ tail,
      history (snd (session_turn unreachable (replies (asks two_mods))
                      "7 mod 3 and 8 mod 4?" fresh))
      = asked "7 mod 3 and 8 mod 4?" two_mods
        ++ [ToolMessage "a" (PStr "1"); ToolMessage "b" (PStr "0")] ++ tail
      ∧ (tail = [] ∨ ∃ c, tail = [AIMessage c []]).
Proof.
  apply (tool_results_follow_requests
           unreachable (replies (asks two_mods)) (tool_by_name [modulus_tool])
           loads_object dumps_scalar
           "7 mod 3 and 8 mod 4?" fresh (asks two_mods) []
           [ToolMessage "a" (PStr "1"); ToolMessage "b" (PStr "0")]
           {| world := [("modulus", tc_args (mod_call "a" 7 3));
                        ("modulus", tc_args (mod_call "b" 8 4))];
              history := asked "7 mod 3 and 8 mod 4?" two_mods |}).
  - discriminate.
  - reflexivity.
  - discriminate.
  - vm_compute. reflexivity.
Defined.

(** C1 as stated fails: the first reply requests [a] and then [b], the
    name requested by [b] is not registered, and the turn ends with no
    tool message in the history, for [b] and for [a]. *)
Lemma request_without_result :
  map tc_id [mod_call "a" 7 3; moon_call "b"] = ["a"; "b"]
  ∧ history (snd (session_turn (replies (says "done"))
                    (replies (asks [mod_call "a" 7 3; moon_call "b"]))
                    "7 mod 3, then the moon" fresh))
    = asked "7 mod 3, then the moon" [mod_call "a" 7 3; moon_call "b"]
  ∧ tool_message_ids
      (history (snd (session_turn (replies (says "done"))
                       (replies (asks [mod_call "a" 7 3; moon_call "b"]))
                       "7 mod 3, then the moon" fresh)))
    = [].
Proof. vm_compute. repeat split. Qed.

Lemma unknown_tool_aborts_turn_witness :
  session_turn (replies (says "done")) (replies (asks [mod_call "a" 7 3; moon_call "b"]))
    "7 mod 3, then the moon" fresh
  = (inl (KeyError "fly_to_moon"),
     {| world := [("modulus", tc_args (mod_call "a" 7 3))];
        history := asked "7 mod 3, then the moon" [mod_call "a" 7 3; moon_call "b"] |}).
Proof.
  apply (unknown_tool_aborts_turn
           (replies (says "done")) (replies (asks [mod_call "a" 7 3; moon_call "b"]))
           (tool_by_name [modulus_tool]) loads_object dumps_scalar
           "7 mod 3, then the moon" fresh
           (asks [mod_call "a" 7 3; moon_call "b"]) []
           [mod_call "a" 7 3] (moon_call "b") []
           [ToolMessage "a" (PStr "1")]
           {| world := [("modulus", tc_args (mod_call "a" 7 3))];
              history := asked "7 mod 3, then the moon"
                           [mod_call "a" 7 3; moon_call "b"] |}).
  - discriminate.
  - reflexivity.
  - reflexivity.
  - vm_compute. reflexivity.
  - vm_compute. reflexivity.
Defined.

(** C2 as stated fails: the only request names [fly_to_moon], which is not
    registered; the turn raises [KeyError], no tool message is made for
    the request and no final answer is appended. *)
Lemma unknown_tool_raises_key_error :
  session_turn (replies (says "no such tool")) (replies (asks [moon_call "a"]))
    "fly me to the moon" fresh
  = (inl (KeyError "fly_to_moon"),
     {| world := [];
        history :=
          initial_history
          ++ [HumanMessage (PStr "fly me to the moon");
              AIMessage (PStr "") [moon_call "a"]] |}).
Proof. vm_compute. reflexivity. Qed.

Lemma tool_failure_aborts_turn_witness :
  session_turn (replies (says "done")) (replies (asks [mod_call "a" 7 3; mod_call "b" 1 0]))
    "7 mod 3 and 1 mod 0?" fresh
  = (inl (ToolException "Modulus by zero is not allowed"),
     {| world := [("modulus", tc_args (mod_call "a" 7 3));
                  ("modulus", tc_args (mod_call "b" 1 0))];
        history := asked "7 mod 3 and 1 mod 0?" [mod_call "a" 7 3; mod_call "b" 1 0] |}).
Proof.
  apply (tool_failure_aborts_turn
           (replies (says "done")) (replies (asks [mod_call "a" 7 3; mod_call "b" 1 0]))
           (tool_by_name [modulus_tool]) loads_object dumps_scalar
           "7 mod 3 and 1 mod 0?" fresh
           (asks [mod_call "a" 7 3; mod_call "b" 1 0]) []
           [mod_call "a" 7 3] (mod_call "b" 1 0) []
           [ToolMessage "a" (PStr "1")]
           {| world := [("modulus", tc_args (mod_call "a" 7 3))];
              history := asked "7 mod 3 and 1 mod 0?"
                           [mod_call "a" 7 3; mod_call "b" 1 0] |}
           modulus_tool).
  - discriminate.
  - reflexivity.
  - reflexivity.
  - vm_compute. reflexivity.
  - vm_compute. reflexivity.
  - vm_compute. reflexivity.
Defined.

(** C3 as stated fails: of the two requests the first divides by zero; the
    turn raises the tool's exception, the second request is never run (the
    server has seen one invocation), no tool message is in the history and
    no final answer is appended. *)
Lemma failing_tool_stops_batch :
  session_turn (replies (says "done")) (replies (asks [mod_call "a" 1 0; mod_call "b" 7 3]))
    "1 mod 0 and 7 mod 3?" fresh
  = (inl (ToolException "Modulus by zero is not allowed"),
     {| world := [("modulus", tc_args (mod_call "a" 1 0))];
        history :=
          initial_history
          ++ [HumanMessage (PStr "1 mod 0 and 7 mod 3?");
              AIMessage (PStr "") [mod_call "a" 1 0; mod_call "b" 7 3]] |}).
Proof. vm_compute. reflexivity. Qed.

Lemma model_failure_keeps_transcript_witness :
  session_turn (replies (says "hello")) unreachable "hello" fresh
  = (inl (ModelUnavailable "connection error"),
     {| world := [];
        history := initial_history ++ [HumanMessage (PStr "hello")] |})
  ∧ session_turn unreachable (replies (asks [mod_call "a" 7 3])) "7 mod 3?" fresh
    = (inl (ModelUnavailable "connection error"),
       {| world := [("modulus", tc_args (mod_call "a" 7 3))];
          history :=
            (initial_history
             ++ [HumanMessage (PStr "7 mod 3?"); as_message (asks [mod_call "a" 7 3])])
            ++ [ToolMessage "a" (PStr "1")] |}).
Proof.
  split.
  - apply (proj1 (model_failure_keeps_transcript
                    (replies (says "hello")) unreachable
                    (tool_by_name [modulus_tool]) loads_object dumps_scalar
                    "hello" fresh (ModelUnavailable "connection error") []
                    ltac:(discriminate))).
    reflexivity.
  - apply (proj2 (model_failure_keeps_transcript
                    unreachable (replies (asks [mod_call "a" 7 3]))
                    (tool_by_name [modulus_tool]) loads_object dumps_scalar
                    "7 mod 3?" fresh (ModelUnavailable "connection error")
                    [("modulus", tc_args (mod_call "a" 7 3))]
                    ltac:(discriminate))
             (asks [mod_call "a" 7 3]) []
             [ToolMessage "a" (PStr "1")]
             {| world := [("modulus", tc_args (mod_call "a" 7 3))];
                history := asked "7 mod 3?" [mod_call "a" 7 3] |}).
    + reflexivity.
    + discriminate.
    + vm_compute. reflexivity.
    + reflexivity.
Defined.

Lemma final_answer_has_no_calls_witness :
  session_turn (replies asks_again) (replies (asks [mod_call "a" 7 3])) "7 mod 3?" fresh
  = (inr tt,
     {| world := [("modulus", tc_args (mod_call "a" 7 3))];
        history :=
          (initial_history
           ++ [HumanMessage (PStr "7 mod 3?"); as_message (asks [mod_call "a" 7 3])])
          ++ [ToolMessage "a" (PStr "1")]
          ++ [AIMessage (PStr "") []] |}).
Proof.
  apply (final_answer_has_no_calls
           (replies asks_again) (replies (asks [mod_call "a" 7 3]))
           (tool_by_name [modulus_tool]) loads_object dumps_scalar
           "7 mod 3?" fresh (asks [mod_call "a" 7 3]) []
           [ToolMessage "a" (PStr "1")]
           {| world := [("modulus", tc_args (mod_call "a" 7 3))];
              history := asked "7 mod 3?" [mod_call "a" 7 3] |}
           asks_again [("modulus", tc_args (mod_call "a" 7 3))]).
  - discriminate.
  - reflexivity.
  - discriminate.
  - vm_compute. reflexivity.
  - reflexivity.
Defined.

Lemma string_args_parsed_or_kept_witness :
  (prepare_args loads_object (tc_args (text_call "{}")) = PDict []
   ∧ run_tool (tool_by_name [modulus_tool]) loads_object dumps_scalar
       (text_call "{}") fresh
     = (inl (ToolException "invalid arguments"),
        {| world := [("modulus", PDict [])]; history := initial_history |}))
  ∧ (prepare_args loads_object (tc_args (text_call "a=7")) = PStr "a=7"
     ∧ run_tool (tool_by_name [modulus_tool]) loads_object dumps_scalar
         (text_call "a=7") fresh
       = (inl (ToolException "invalid arguments"),
          {| world := [("modulus", PStr "a=7")]; history := initial_history |})).
Proof.
  split.
  - apply (string_args_parsed_or_kept
             (tool_by_name [modulus_tool]) loads_object dumps_scalar
             (text_call "{}") "{}" modulus_tool fresh).
    + reflexivity.
    + vm_compute. reflexivity.
  - apply (string_args_parsed_or_kept
             (tool_by_name [modulus_tool]) loads_object dumps_scalar
             (text_call "a=7") "a=7" modulus_tool fresh).
    + reflexivity.
    + vm_compute. reflexivity.
Defined.

(** C6 as stated fails on the empty string: [json.loads] does not parse
    it, and what the tool receives is the empty dict, not the string. *)
Lemma empty_string_args_replaced :
  loads_object "" = None
  ∧ prepare_args loads_object (tc_args (text_call "")) = PDict []
  ∧ run_tool (tool_by_name [modulus_tool]) loads_object dumps_scalar
      (text_call "") fresh
    = (inl (ToolException "invalid arguments"),
       {| world := [("modulus", PDict [])]; history := initial_history |}).
Proof. vm_compute. repeat split. Qed.

(** *** More on the registry *)

Section RegistryLookup.
Context {World : Type}.
Implicit Types (t : tool World) (tools : list (tool World)).

(** X1. A name resolves only to a tool of the sequence that bears this
    name, and it fails to resolve exactly when no tool of the sequence
    bears it. *)
Theorem registry_lookup_sound tools :
  (∀ n t, tool_by_name tools !! n = Some t → t ∈ tools ∧ name t = n)
  ∧ (∀ n, tool_by_name tools !! n = None ↔ ∀ t, t ∈ tools → name t ≠ n).
Proof.
  induction tools as [|t0 tools [IHs IHn]] using rev_ind.
  - split; [done|]. intros n. split; [|done]. intros _ t Ht.
    by apply elem_of_nil in Ht.
  - split.
    + intros n t. rewrite tool_by_name_snoc.
      destruct (decide (name t0 = n)) as [<-|Hne].
      * rewrite lookup_insert_eq. intros [= <-]. split; [|done].
        apply elem_of_app. right. by apply list_elem_of_singleton.
      * rewrite lookup_insert_ne by done. intros [Ht Hn]%IHs.
        split; [|done]. apply elem_of_app. by left.
    + intros n. rewrite tool_by_name_snoc.
      destruct (decide (name t0 = n)) as [<-|Hne].
      * rewrite lookup_insert_eq. split; [done|]. intros Hno.
        destruct (Hno t0); [|done].
        apply elem_of_app. right. by apply list_elem_of_singleton.
      * rewrite lookup_insert_ne by done. rewrite IHn. split.
        -- intros Hno t [Ht|Ht%list_elem_of_singleton]%elem_of_app;
             [by apply Hno|by subst].
        -- intros Hno t Ht. apply Hno, elem_of_app. by left.
Qed.


End RegistryLookup.


(** *** More on the turn *)

Section TurnEnds.
Context {World : Type}.
Context (llm llm_with_tools : list message → external World reply).
Context (registry : gmap string (tool World)).
Context (json_loads : string → option pyval).
Context (json_dumps : pyval → exn + string).

Abbreviation turn' := (chat_turn llm llm_with_tools registry json_loads json_dumps).
Abbreviation tool_loop' := (run_tools registry json_loads json_dumps).

Implicit Types (s : state World) (u : string) (h : list message).

Lemma chat_turn_empty s : turn' "" s = (inr tt, s).
Proof. done. Qed.

Lemma chat_turn_end u s :
  u ≠ "" →
  turn_end u (history s) (fst (turn' u s)) (history (snd (turn' u s))).
Proof.
  intros Hu. rewrite (chat_turn_run llm llm_with_tools) by done. cbn zeta.
  destruct (llm_with_tools _ (world s)) as [[e|first] w1];
    [apply first_call_raised|].
  rewrite <- app_assoc. cbn [app].
  destruct (tool_calls first) as [|tc tcs] eqn:Hcalls.
  { unfold as_message. rewrite Hcalls. apply answered_directly. }
  pose proof (run_tools_history registry json_loads json_dumps (tc :: tcs) []
    {| world := w1;
       history := history s ++ [HumanMessage (PStr u); as_message first] |})
    as Hh.
  destruct (tool_loop' (tc :: tcs) [] _) as [[e|msgs] s2] eqn:Hloop;
    cbn [snd fst history] in *.
  { rewrite Hh. unfold as_message. rewrite Hcalls. by apply tool_loop_raised. }
  apply run_tools_inr in Hloop as (new & -> & Hnew). cbn [app] in *.
  rewrite Hh. unfold as_message. rewrite Hcalls.
  destruct (llm _ (world s2)) as [[e|final] w']; cbn [snd fst history].
  - rewrite <- app_assoc. by apply second_call_raised.
  - rewrite <- !app_assoc. by apply answered_after_tools.
Qed.



Lemma render_answers calls msgs : Forall2 answers calls msgs → render msgs = [].
Proof. induction 1 as [|tc msg calls msgs [c ->] _ IH]; [done|]. exact IH. Qed.

Lemma scan_app p h1 h2 :
  scan p (h1 ++ h2) = scan p h1 ≫= λ p', scan p' h2.
Proof.
  revert p. induction h1 as [|msg h1 IH]; intros p; [done|].
  destruct msg as [c|c|c calls|i c]; destruct p as [|p0 p]; simpl; try done.
  by destruct (String.eqb i p0).
Qed.

Lemma scan_answers calls msgs :
  Forall2 answers calls msgs → scan (map tc_id calls) msgs = Some [].
Proof.
  induction 1 as [|tc msg calls msgs [c ->] _ IH]; [done|].
  simpl. by rewrite String.eqb_refl.
Qed.

Lemma last_app_snoc (h h0 : list message) msg : last (h ++ h0 ++ [msg]) = Some msg.
Proof. rewrite app_assoc. apply last_snoc. Qed.

Lemma paired_scan h : paired h = true ↔ scan [] h = Some [].
Proof.
  unfold paired. destruct (scan [] h) as [[|p ps]|]; split; done.
Qed.

(** X4. When a turn on a text that is not empty returns, the history ends
    with an assistant message without tool calls, and the bubbles drawn
    for the new history are the bubbles of the old one followed by the
    bubble of the user's text and the bubble of that assistant message:
    the reply carrying the calls and the tool messages draw nothing. *)
Theorem render_after_answer u s :
  u ≠ "" →
  fst (turn' u s) = inr tt →
  ∃ c,
    last (history (snd (turn' u s))) = Some (AIMessage c [])
    ∧ render (history (snd (turn' u s)))
      = render (history s)
        ++ [{| b_role := user; b_text := PStr u |};
            {| b_role := assistant; b_text := c |}].
Proof.
  intros Hu Hret. pose proof (chat_turn_end u s Hu) as Hend.
  rewrite Hret in Hend. remember (history (snd (turn' u s))) as h' eqn:Hh'.
  clear Hh' Hret. inversion Hend as [|c Hc|
    |
    |c calls msgs c' Hcalls Hmsgs Hc]; subst.
  - exists c. split.
    + apply (last_app_snoc (history s) [HumanMessage (PStr u)]).
    + by rewrite render_app.
  - exists c'. split.
    + apply (last_app_snoc (history s)
               (HumanMessage (PStr u) :: AIMessage c calls :: msgs)).
    + rewrite !render_app. destruct calls as [|tc tcs]; [done|].
      rewrite (render_answers _ _ Hmsgs). done.
Qed.

(** X5. When a turn raises, wherever it raises, the bubbles drawn for the
    history it leaves are the bubbles of the old history followed by the
    bubble of the user's text alone: what the turn stored after the user
    message draws nothing. *)
Theorem render_after_failure u s e :
  fst (turn' u s) = inl e →
  render (history (snd (turn' u s)))
  = render (history s) ++ [{| b_role := user; b_text := PStr u |}].
Proof.
  intros Hraise.
  destruct (decide (u = "")) as [->|Hu].
  { by rewrite chat_turn_empty in Hraise. }
  pose proof (chat_turn_end u s Hu) as Hend.
  rewrite Hraise in Hend. remember (history (snd (turn' u s))) as h' eqn:Hh'.
  clear Hh' Hraise. inversion Hend as [e1 He1|
    |e1 c calls Hcalls He1
    |e1 c calls msgs Hcalls Hmsgs He1
    |]; subst.
  - by rewrite render_app.
  - rewrite render_app. by destruct calls.
  - rewrite !render_app. destruct calls as [|tc tcs]; [done|].
    rewrite (render_answers _ _ Hmsgs). done.
Qed.

(** X6. A turn that returns keeps the history paired: when, before the
    turn, every assistant message with tool calls is followed by the tool
    messages of its calls, one per call and in order, the same holds after
    the turn. *)
Theorem pairing_kept u s :
  paired (history s) = true →
  fst (turn' u s) = inr tt →
  paired (history (snd (turn' u s))) = true.
Proof.
  intros Hp Hret.
  destruct (decide (u = "")) as [->|Hu].
  { by rewrite chat_turn_empty. }
  apply paired_scan in Hp. apply paired_scan.
  pose proof (chat_turn_end u s Hu) as Hend.
  rewrite Hret in Hend. remember (history (snd (turn' u s))) as h' eqn:Hh'.
  clear Hh' Hret. inversion Hend as [|c Hc|
    |
    |c calls msgs c' Hcalls Hmsgs Hc]; subst.
  - by rewrite scan_app, Hp.
  - rewrite scan_app, Hp. cbn [mbind option_bind app scan].
    rewrite scan_app, (scan_answers _ _ Hmsgs). done.
Qed.


End TurnEnds.


Lemma render_after_answer_witness :
  ∃ c,
    last (history (snd (session_turn (replies (says "1"))
                          (replies (asks [mod_call "a" 7 3])) "7 mod 3?" fresh)))
    = Some (AIMessage c [])
    ∧ render (history (snd (session_turn (replies (says "1"))
                              (replies (asks [mod_call "a" 7 3]))
                              "7 mod 3?" fresh)))
      = render (history fresh)
        ++ [{| b_role := user; b_text := PStr "7 mod 3?" |};
            {| b_role := assistant; b_text := c |}].
Proof.
  apply (render_after_answer (replies (says "1"))
           (replies (asks [mod_call "a" 7 3]))
           (tool_by_name [modulus_tool]) loads_object dumps_scalar
           "7 mod 3?" fresh).
  - discriminate.
  - vm_compute. reflexivity.
Defined.

Lemma render_after_failure_witness :
  render (history (snd (session_turn (replies (says "done"))
                          (replies (asks [moon_call "a"]))
                          "fly me to the moon" fresh)))
  = render (history fresh)
    ++ [{| b_role := user; b_text := PStr "fly me to the moon" |}].
Proof.
  apply (render_after_failure (replies (says "done"))
           (replies (asks [moon_call "a"]))
           (tool_by_name [modulus_tool]) loads_object dumps_scalar
           "fly me to the moon" fresh (KeyError "fly_to_moon")).
  vm_compute. reflexivity.
Defined.

Lemma pairing_kept_witness :
  paired (history (snd (session_turn (replies (says "1 and 0"))
                          (replies (asks two_mods))
                          "7 mod 3 and 8 mod 4?" fresh)))
  = true.
Proof.
  apply (pairing_kept (replies (says "1 and 0")) (replies (asks two_mods))
           (tool_by_name [modulus_tool]) loads_object dumps_scalar
           "7 mod 3 and 8 mod 4?" fresh).
  - vm_compute. reflexivity.
  - vm_compute. reflexivity.
Defined.


End ClientProps.

(** ** The time tracker *)

Module TrackerProps.

Import Tracker.

Example add_session_stores :
  add_session noon "Math homework" 90 "Study" None "chapter 3" (init_db noon)
  = ([("status", VStr "success"); ("id", VInt 1);
      ("activity", VStr "Math homework"); ("minutes", VInt 90);
      ("hours", VHours 90); ("category", VStr "Study");
      ("date", VStr "2026-01-05")],
     {| categories := categories (init_db noon);
        sessions :=
          [{| ses_id := 1; ses_activity := "Math homework"; ses_minutes := 90;
              ses_category_id := 2; ses_date := "2026-01-05";
              ses_created_at := "2026-01-05 12:00:00" |}];
        notes :=
          [{| note_id := 1; note_session_id := 1; note_content := "chapter 3";
              note_created_at := "2026-01-05 12:00:00" |}];
        last_category_id := 7; last_session_id := 1; last_note_id := 1 |}).
Proof. reflexivity. Qed.

Lemma select_category_id_none category db :
  (∀ row, row ∈ categories db → cat_name row ≠ category) →
  select_category_id category db = None.
Proof.
  intros Hno. unfold select_category_id.
  destruct (find _ (categories db)) as [row|] eqn:Hfind; [|done].
  apply find_some in Hfind as [Hin Heq].
  apply String.eqb_eq in Heq. apply list_elem_of_In in Hin.
  by destruct (Hno row Hin).
Qed.

(** C10. A call of [add_session] with minutes that are not positive, or
    with a category name that no row of the categories table bears,
    returns a dict made of the status [error] and a message, and leaves
    the database as it was: no session row and no note row is added. *)
Theorem add_session_rejects clk activity minutes category session_date note db :
  minutes ≤ 0 ∨ (∀ row, row ∈ categories db → cat_name row ≠ category) →
  ∃ message,
    add_session clk activity minutes category session_date note db
    = ([("status", VStr "error"); ("message", VStr message)], db).
Proof.
  intros Hbad. unfold add_session.
  destruct (Z.leb_spec minutes 0) as [Hle|Hgt]; [by eexists|].
  destruct Hbad as [Hle|Hno]; [lia|].
  rewrite (select_category_id_none category db Hno). by eexists.
Qed.

Lemma add_session_rejects_witness :
  (∃ message,
     add_session noon "Nap" 0 "Other" None "" (init_db noon)
     = ([("status", VStr "error"); ("message", VStr message)], init_db noon))
  ∧ (∃ message,
       add_session noon "Chess" 30 "Games" None "blitz" (init_db noon)
       = ([("status", VStr "error"); ("message", VStr message)], init_db noon)).
Proof.
  split.
  - apply (add_session_rejects noon "Nap" 0 "Other" None "" (init_db noon)).
    left. lia.
  - apply (add_session_rejects noon "Chess" 30 "Games" None "blitz" (init_db noon)).
    right. intros row Hrow. vm_compute in Hrow.
    repeat (apply elem_of_cons in Hrow as [->|Hrow]; [discriminate|]).
    by apply elem_of_nil in Hrow.
Defined.

(** *** Lookups *)

Lemma find_snoc {A} (f : A → bool) (l : list A) (x : A) :
  find f (l ++ [x])
  = match find f l with
    | Some y => Some y
    | None => if f x then Some x else None
    end.
Proof.
  induction l as [|y l IH]; simpl; [done|].
  by destruct (f y).
Qed.

Lemma find_absent {A} (f : A → bool) (l : list A) :
  Forall (λ x, f x = false) l → find f l = None.
Proof.
  induction 1 as [|x l Hx _ IH]; simpl; [done|]. by rewrite Hx.
Qed.

Lemma select_category_id_is_none category db :
  select_category_id category db = None
  ↔ category ∉ cat_name <$> categories db.
Proof.
  split.
  - unfold select_category_id.
    destruct (find _ (categories db)) as [row|] eqn:Hfind; [done|].
    intros _ (row & -> & Hrow)%list_elem_of_fmap.
    apply list_elem_of_In in Hrow.
    pose proof (find_none _ _ Hfind row Hrow) as Hne. simpl in Hne.
    by rewrite String.eqb_refl in Hne.
  - intros Hno. apply select_category_id_none. intros row Hrow Heq.
    apply Hno, list_elem_of_fmap. by exists row.
Qed.

Lemma existsb_name name (rows : list category_row) :
  existsb (λ row, String.eqb (cat_name row) name) rows = true
  ↔ name ∈ cat_name <$> rows.
Proof.
  rewrite existsb_exists. split.
  - intros (row & Hrow%list_elem_of_In & Heq%String.eqb_eq).
    apply list_elem_of_fmap. by exists row.
  - intros (row & -> & Hrow)%list_elem_of_fmap. exists row.
    split; [by apply list_elem_of_In|apply String.eqb_refl].
Qed.

(** *** add_category *)

(** X9. A call of [add_category] with a name that a stored category bears
    returns the error dict with the message that the category already
    exists and leaves the database as it was, whatever the colour. *)
Theorem add_category_duplicate clk name color db :
  name ∈ cat_name <$> categories db →
  add_category clk name color db
  = (error ("Category '" +:+ name +:+ "' already exists"), db).
Proof.
  intros Hin%existsb_name. unfold add_category, execute_insert_category.
  by rewrite Hin.
Qed.

Lemma add_category_duplicate_witness :
  add_category noon "Work" (Some "#000000") (init_db noon)
  = (error "Category 'Work' already exists", init_db noon).
Proof.
  apply (add_category_duplicate noon "Work" (Some "#000000") (init_db noon)).
  vm_compute. apply list_elem_of_here.
Defined.

Lemma add_category_fresh clk name color db :
  name ∉ cat_name <$> categories db →
  add_category clk name color db
  = ([("status", VStr "success");
      ("id", VInt (last_category_id db + 1));
      ("message", VStr ("Category '" +:+ name +:+ "' added"))],
     insert_category clk db
       (name, match color with None => "#6B7280" | Some c => c end)).
Proof.
  intros Hno. unfold add_category, execute_insert_category.
  destruct (existsb _ (categories db)) eqn:Hex; [|done].
  by apply existsb_name in Hex.
Qed.


(** X10. A call of [add_category] with a name that no stored category
    bears succeeds with the id that follows the last one handed out;
    afterwards the name resolves to that id, every other name resolves as
    before, and sessions and notes are untouched. *)
Theorem add_category_lookup clk name color db :
  name ∉ cat_name <$> categories db →
  field "status" (fst (add_category clk name color db)) = Some (VStr "success")
  ∧ field "id" (fst (add_category clk name color db))
    = Some (VInt (last_category_id db + 1))
  ∧ select_category_id name (snd (add_category clk name color db))
    = Some (last_category_id db + 1)
  ∧ (∀ other,
       other ≠ name →
       select_category_id other (snd (add_category clk name color db))
       = select_category_id other db)
  ∧ sessions (snd (add_category clk name color db)) = sessions db
  ∧ notes (snd (add_category clk name color db)) = notes db.
Proof.
  intros Hno. rewrite (add_category_fresh clk name color db Hno).
  split; [done|]. split; [done|].
  apply select_category_id_is_none in Hno. unfold select_category_id in *.
  cbn [snd insert_category categories fst]. split; [|split; [|done]].
  - rewrite find_snoc. destruct (find _ (categories db)); [done|].
    cbn [cat_name]. by rewrite String.eqb_refl.
  - intros other Hother. rewrite find_snoc.
    destruct (find (λ row, String.eqb (cat_name row) other) (categories db));
      [done|].
    cbn [cat_name fst].
    destruct (String.eqb_spec name other); [by subst|done].
Qed.

Lemma add_category_lookup_witness :
  field "status" (fst (add_category noon "Games" None (init_db noon)))
  = Some (VStr "success")
  ∧ field "id" (fst (add_category noon "Games" None (init_db noon)))
    = Some (VInt (last_category_id (init_db noon) + 1))
  ∧ select_category_id "Games" (snd (add_category noon "Games" None (init_db noon)))
    = Some (last_category_id (init_db noon) + 1)
  ∧ (∀ other,
       other ≠ "Games" →
       select_category_id other (snd (add_category noon "Games" None (init_db noon)))
       = select_category_id other (init_db noon))
  ∧ sessions (snd (add_category noon "Games" None (init_db noon)))
    = sessions (init_db noon)
  ∧ notes (snd (add_category noon "Games" None (init_db noon)))
    = notes (init_db noon).
Proof.
  apply (add_category_lookup noon "Games" None (init_db noon)).
  vm_compute. intros Hin.
  repeat (apply elem_of_cons in Hin as [Hin|Hin]; [discriminate|]).
  by apply elem_of_nil in Hin.
Defined.



(** *** add_session and add_note *)

Lemma add_session_success clk activity minutes category session_date note db cid :
  0 < minutes →
  select_category_id category db = Some cid →
  add_session clk activity minutes category session_date note db
  = let date := match session_date with None => today clk | Some d => d end in
    let id := last_session_id db + 1 in
    let db1 :=
      {| categories := categories db;
         sessions :=
           sessions db
           ++ [{| ses_id := id; ses_activity := activity;
                  ses_minutes := minutes; ses_category_id := cid;
                  ses_date := date; ses_created_at := now clk |}];
         notes := notes db;
         last_category_id := last_category_id db;
         last_session_id := id;
         last_note_id := last_note_id db |} in
    ([("status", VStr "success"); ("id", VInt id);
      ("activity", VStr activity); ("minutes", VInt minutes);
      ("hours", VHours minutes); ("category", VStr category);
      ("date", VStr date)],
     if String.eqb note "" then db1 else insert_note clk id note db1).
Proof.
  intros Hpos Hcat. unfold add_session, insert_session.
  destruct (Z.leb_spec minutes 0) as [?|_]; [lia|].
  destruct (Z.gtb_spec minutes 0) as [_|?]; [|lia].
  by rewrite Hcat.
Qed.

Lemma find_session_issued id db :
  Forall (λ row, ses_id row ≤ last_session_id db) (sessions db) →
  last_session_id db < id →
  find_session id db = None.
Proof.
  intros Hids Hid. apply find_absent.
  eapply Forall_impl; [exact Hids|]. simpl. intros row Hrow.
  apply Z.eqb_neq. lia.
Qed.


Lemma add_note_missing_session clk session_id content db :
  find_session session_id db = None →
  add_note clk session_id content db
  = (error ("Session " +:+ show session_id +:+ " not found"), db).
Proof. intros Hnone. unfold add_note. by rewrite Hnone. Qed.

(** X14. In a consistent database, storing a session together with a note
    that is not empty leaves the same database as storing the session
    with an empty note and then adding the note to the returned id with
    [add_note], at the same time. *)
Theorem add_session_note_as_add_note
    clk activity minutes category session_date note db cid :
  consistent db →
  0 < minutes →
  select_category_id category db = Some cid →
  note ≠ "" →
  snd (add_session clk activity minutes category session_date note db)
  = snd (add_note clk (last_session_id db + 1) note
           (snd (add_session clk activity minutes category session_date "" db))).
Proof.
  intros Hdb Hpos Hcat Hnote.
  rewrite !(add_session_success clk activity minutes category session_date
              _ db cid Hpos Hcat).
  cbn zeta. destruct (String.eqb_spec note ""); [done|].
  pose proof (find_session_issued (last_session_id db + 1) db
                (session_ids_issued db Hdb) ltac:(lia)) as Hnew.
  cbn [String.eqb snd]. unfold add_note, find_session in *. cbn [sessions].
  rewrite find_snoc, Hnew.
  cbn [ses_id]. by rewrite Z.eqb_refl.
Qed.

Lemma init_db_consistent clk : consistent (init_db clk).
Proof.
  split; cbn.
  - repeat (constructor; [cbn; lia|]). constructor.
  - apply (bool_decide_unpack _). vm_compute. exact I.
  - apply (bool_decide_unpack _). vm_compute. exact I.
  - constructor.
  - constructor.
  - constructor.
  - constructor.
  - constructor.
  - constructor.
  - constructor.
Qed.


Lemma add_session_note_as_add_note_witness :
  snd (add_session noon "Math homework" 90 "Study" None "chapter 3" (init_db noon))
  = snd (add_note noon (last_session_id (init_db noon) + 1) "chapter 3"
           (snd (add_session noon "Math homework" 90 "Study" None ""
                   (init_db noon)))).
Proof.
  apply (add_session_note_as_add_note noon "Math homework" 90 "Study" None
           "chapter 3" (init_db noon) 2).
  - apply init_db_consistent.
  - lia.
  - reflexivity.
  - discriminate.
Defined.

(** *** update_session *)

Lemma build_updates_inr activity minutes category session_date db updates :
  build_updates activity minutes category session_date db = inr updates →
  updates
  = option_list (set_activity <$> activity)
    ++ option_list (set_minutes <$> minutes)
    ++ option_list (set_category_id
                      <$> (category ≫= λ n, select_category_id n db))
    ++ option_list (set_session_date <$> session_date)
  ∧ updates ≠ []
  ∧ (∀ m, minutes = Some m → 0 < m)
  ∧ (∀ n, category = Some n → is_Some (select_category_id n db)).
Proof.
  unfold build_updates.
  destruct activity as [a|], minutes as [m|], category as [n|],
    session_date as [d|]; cbn;
    repeat match goal with
    | |- context [?m <=? 0] => destruct (Z.leb_spec m 0)
    | |- context [select_category_id ?n db] =>
        destruct (select_category_id n db) eqn:Hcid
    end; cbn; try done; intros [= <-];
    (repeat split; try done; intros ? [= <-]; try lia;
     rewrite ?Hcid; by eexists).
Qed.

(** X15. A call of [update_session] returns the error dict and leaves the
    database as it was when the id finds no session, or the minutes are
    given and not positive, or the category is given and not stored, or
    none of the four fields is given. *)
Theorem update_session_rejects session_id activity minutes category session_date db :
  find_session session_id db = None
  ∨ (∃ m, minutes = Some m ∧ m ≤ 0)
  ∨ (∃ n, category = Some n ∧ n ∉ cat_name <$> categories db)
  ∨ (activity = None ∧ minutes = None ∧ category = None ∧ session_date = None) →
  ∃ message,
    update_session session_id activity minutes category session_date db
    = (error message, db).
Proof.
  intros Hbad. unfold update_session.
  destruct (find_session session_id db) as [row|]; [|by eexists].
  destruct (build_updates activity minutes category session_date db)
    as [message|updates] eqn:Hbuild; [by eexists|].
  apply build_updates_inr in Hbuild as (Hups & Hne & Hmin & Hcat).
  destruct Hbad as [?|[(m & -> & Hm)|[(n & -> & Hn)|(-> & -> & -> & ->)]]].
  - done.
  - specialize (Hmin m eq_refl). lia.
  - destruct (Hcat n eq_refl) as [cid Hcid].
    apply select_category_id_is_none in Hn. congruence.
  - by subst.
Qed.

Lemma update_session_rejects_witness :
  (∃ message,
     update_session 1 (Some "Nap") None None None (init_db noon)
     = (error message, init_db noon))
  ∧ (∃ message,
       update_session 1 None None None None
         (snd (add_session noon "Math homework" 90 "Study" None "" (init_db noon)))
       = (error message,
          snd (add_session noon "Math homework" 90 "Study" None "" (init_db noon)))).
Proof.
  split.
  - apply (update_session_rejects 1 (Some "Nap") None None None (init_db noon)).
    left. reflexivity.
  - apply (update_session_rejects 1 None None None None
             (snd (add_session noon "Math homework" 90 "Study" None ""
                     (init_db noon)))).
    right. right. right. repeat split.
Defined.






(** *** What every call keeps *)

Section Keys.
Context {A : Type} (key : A → Z).

Lemma snoc_issued (rows : list A) (new : A) (last : Z) :
  Forall (λ row, key row ≤ last) rows →
  key new = last + 1 →
  Forall (λ row, key row ≤ last + 1) (rows ++ [new]).
Proof.
  intros Hrows Hnew. apply Forall_app. split.
  - eapply Forall_impl; [exact Hrows|]. simpl. lia.
  - constructor; [lia|constructor].
Qed.

Lemma snoc_distinct (rows : list A) (new : A) (last : Z) :
  Forall (λ row, key row ≤ last) rows →
  NoDup (key <$> rows) →
  key new = last + 1 →
  NoDup (key <$> rows ++ [new]).
Proof.
  intros Hrows Hnd Hnew. rewrite fmap_app. apply NoDup_app.
  split; [done|]. split; [|apply NoDup_singleton].
  intros k (row & -> & Hrow)%list_elem_of_fmap Hk%list_elem_of_singleton.
  apply (proj1 (Forall_forall _ _) Hrows) in Hrow. simpl in Hk. lia.
Qed.



End Keys.

Lemma select_category_id_stored category db cid :
  select_category_id category db = Some cid → cid ∈ cat_id <$> categories db.
Proof.
  unfold select_category_id.
  destruct (find _ (categories db)) as [row|] eqn:Hfind; [|done].
  intros [= <-]. apply find_some in Hfind as [Hin%list_elem_of_In _].
  apply list_elem_of_fmap. by exists row.
Qed.



Lemma insert_note_consistent clk session_id content db :
  consistent db →
  session_id ≤ last_session_id db →
  consistent (insert_note clk session_id content db).
Proof.
  intros [] Hid. split; cbn; try done.
  - by apply (snoc_issued note_id _ _ (last_note_id db)).
  - by apply (snoc_distinct note_id _ _ (last_note_id db)).
  - apply Forall_app. split; [done|]. constructor; [done|constructor].
Qed.

Lemma add_session_consistent clk activity minutes category session_date note db :
  consistent db →
  consistent (snd (add_session clk activity minutes category session_date note db)).
Proof.
  intros Hdb. unfold add_session.
  destruct (Z.leb_spec minutes 0) as [|Hpos]; [done|].
  destruct (select_category_id category db) as [cid|] eqn:Hcat; [|done].
  unfold insert_session. destruct (Z.gtb_spec minutes 0) as [_|]; [|done].
  cbn [snd].
  match goal with
  | |- consistent (if _ then ?db1 else _) =>
      assert (consistent db1) as Hdb1
  end.
  { destruct Hdb. split; cbn; try done.
    - by apply (snoc_issued ses_id _ _ (last_session_id db)).
    - by apply (snoc_distinct ses_id _ _ (last_session_id db)).
    - apply Forall_app. split; [done|]. constructor; [done|constructor].
    - apply Forall_app. split; [done|].
      constructor; [|constructor]. by eapply select_category_id_stored.
    - eapply Forall_impl; [eassumption|]. simpl. lia. }
  destruct (String.eqb note ""); [done|].
  apply insert_note_consistent; [done|]. cbn. lia.
Qed.








(** The database after one session was stored at start-up. *)
Lemma one_session_consistent :
  consistent
    (snd (add_session noon "Math homework" 90 "Study" None "" (init_db noon))).
Proof. apply add_session_consistent, init_db_consistent. Qed.


(** *** delete_session *)

Lemma find_session_none_filter session_id db :
  find_session session_id db = None
  ↔ filter (λ row, ses_id row = session_id) (sessions db) = [].
Proof.
  unfold find_session. induction (sessions db) as [|row rows IH]; [done|].
  rewrite filter_cons. cbn [find].
  destruct (Z.eqb_spec (ses_id row) session_id) as [Heq|Hne];
    destruct (decide (ses_id row = session_id)); try done.
Qed.

Lemma find_filter_other session_id other (rows : list session_row) :
  other ≠ session_id →
  find (λ row, ses_id row =? other) (filter (λ row, ses_id row ≠ session_id) rows)
  = find (λ row, ses_id row =? other) rows.
Proof.
  intros Hother. induction rows as [|row rows IH]; [done|].
  rewrite filter_cons. cbn [find].
  destruct (decide (ses_id row ≠ session_id)) as [Hne|Heq]; cbn [find].
  - by rewrite IH.
  - rewrite IH. destruct (Z.eqb_spec (ses_id row) other); [|done].
    destruct Heq. lia.
Qed.

Lemma find_filter_self session_id (rows : list session_row) :
  find (λ row, ses_id row =? session_id)
    (filter (λ row, ses_id row ≠ session_id) rows)
  = None.
Proof.
  apply find_absent, Forall_forall.
  intros row [Hne _]%list_elem_of_filter. by apply Z.eqb_neq.
Qed.

Lemma delete_session_absent foreign_keys session_id db :
  find_session session_id db = None →
  delete_session foreign_keys session_id db
  = (error ("Session " +:+ show session_id +:+ " not found"), db).
Proof.
  intros Hnone%find_session_none_filter. unfold delete_session.
  by rewrite Hnone.
Qed.



(** X19. A call of [delete_session] for an id that finds a session
    succeeds; afterwards the id finds no session, every other id finds
    what it found before, the categories and the last session id handed
    out are untouched, the notes are untouched when foreign keys are off
    and lose the notes of that session when they are on, and a second call
    for the same id returns the error that the session is not found. *)
Theorem delete_session_removes foreign_keys session_id db row :
  find_session session_id db = Some row →
  let result := delete_session foreign_keys session_id db in
  field "status" (fst result) = Some (VStr "success")
  ∧ find_session session_id (snd result) = None
  ∧ (∀ other,
       other ≠ session_id →
       find_session other (snd result) = find_session other db)
  ∧ categories (snd result) = categories db
  ∧ last_session_id (snd result) = last_session_id db
  ∧ notes (snd result)
    = (if foreign_keys
       then filter (λ n, note_session_id n ≠ session_id) (notes db)
       else notes db)
  ∧ delete_session foreign_keys session_id (snd result)
    = (error ("Session " +:+ show session_id +:+ " not found"), snd result).
Proof.
  intros Hfind result. subst result.
  assert (delete_session foreign_keys session_id db
          = ([("status", VStr "success");
              ("message", VStr ("Session " +:+ show session_id +:+ " deleted"))],
             {| categories := categories db;
                sessions := filter (λ r, ses_id r ≠ session_id) (sessions db);
                notes :=
                  if foreign_keys
                  then filter (λ n, note_session_id n ≠ session_id) (notes db)
                  else notes db;
                last_category_id := last_category_id db;
                last_session_id := last_session_id db;
                last_note_id := last_note_id db |})) as ->.
  { unfold delete_session.
    destruct (filter _ (sessions db)) as [|r rs] eqn:Hfilter; [|done].
    apply find_session_none_filter in Hfilter. congruence. }
  cbn [fst snd]. split; [done|].
  assert (find_session session_id
            {| categories := categories db;
               sessions := filter (λ r, ses_id r ≠ session_id) (sessions db);
               notes :=
                 if foreign_keys
                 then filter (λ n, note_session_id n ≠ session_id) (notes db)
                 else notes db;
               last_category_id := last_category_id db;
               last_session_id := last_session_id db;
               last_note_id := last_note_id db |} = None) as Hgone.
  { apply find_filter_self. }
  split; [exact Hgone|].
  split; [intros other Hother; by apply find_filter_other|].
  split; [done|]. split; [done|]. split; [done|].
  by apply delete_session_absent.
Qed.

Lemma delete_session_removes_witness :
  field "status"
    (fst (delete_session false 1
            (snd (add_session noon "Math homework" 90 "Study" None ""
                    (init_db noon)))))
  = Some (VStr "success")
  ∧ find_session 1
      (snd (delete_session false 1
              (snd (add_session noon "Math homework" 90 "Study" None ""
                      (init_db noon)))))
    = None.
Proof.
  pose proof (delete_session_removes false 1
                (snd (add_session noon "Math homework" 90 "Study" None ""
                        (init_db noon)))
                {| ses_id := 1; ses_activity := "Math homework"; ses_minutes := 90;
                   ses_category_id := 2; ses_date := "2026-01-05";
                   ses_created_at := "2026-01-05 12:00:00" |}
                eq_refl) as (Hstatus & Hgone & _).
  split; [exact Hstatus|exact Hgone].
Defined.

(** X13. Once a session is deleted its id is dead for the other tools: a
    call of [add_note] and a call of [update_session] for that id, with
    whatever other arguments, return the error dict with the message that
    the session is not found and leave the database as the deletion left
    it. *)
Theorem deleted_session_rejected
    foreign_keys session_id db row clk content activity minutes category
    session_date :
  find_session session_id db = Some row →
  add_note clk session_id content
    (snd (delete_session foreign_keys session_id db))
  = (error ("Session " +:+ show session_id +:+ " not found"),
     snd (delete_session foreign_keys session_id db))
  ∧ update_session session_id activity minutes category session_date
      (snd (delete_session foreign_keys session_id db))
    = (error ("Session " +:+ show session_id +:+ " not found"),
       snd (delete_session foreign_keys session_id db)).
Proof.
  intros Hfind.
  assert (find_session session_id
            (snd (delete_session foreign_keys session_id db)) = None) as Hgone.
  { unfold delete_session.
    destruct (filter _ (sessions db)) as [|r rs] eqn:Hfilter.
    - apply find_session_none_filter in Hfilter. congruence.
    - cbn [length Z.of_nat Z.eqb snd]. apply find_filter_self. }
  split.
  - by apply add_note_missing_session.
  - unfold update_session. by rewrite Hgone.
Qed.

Lemma deleted_session_rejected_witness :
  add_note noon 1 "late"
    (snd (delete_session false 1
            (snd (add_session noon "Math homework" 90 "Study" None ""
                    (init_db noon)))))
  = (error ("Session " +:+ show 1 +:+ " not found"),
     snd (delete_session false 1
            (snd (add_session noon "Math homework" 90 "Study" None ""
                    (init_db noon)))))
  ∧ update_session 1 (Some "Algebra") None None None
      (snd (delete_session false 1
              (snd (add_session noon "Math homework" 90 "Study" None ""
                      (init_db noon)))))
    = (error ("Session " +:+ show 1 +:+ " not found"),
       snd (delete_session false 1
              (snd (add_session noon "Math homework" 90 "Study" None ""
                      (init_db noon))))).
Proof.
  apply (deleted_session_rejected false 1
           (snd (add_session noon "Math homework" 90 "Study" None "" (init_db noon)))
           {| ses_id := 1; ses_activity := "Math homework"; ses_minutes := 90;
              ses_category_id := 2; ses_date := "2026-01-05";
              ses_created_at := "2026-01-05 12:00:00" |}
           noon "late" (Some "Algebra") None None None).
  reflexivity.
Defined.

(** *** Adding and deleting *)




Lemma add_session_id clk activity minutes category session_date note db i :
  field "id" (fst (add_session clk activity minutes category session_date note db))
  = Some (VInt i) →
  i = last_session_id db + 1.
Proof.
  unfold add_session, insert_session.
  destruct (minutes <=? 0); [done|].
  destruct (select_category_id category db); [|done].
  destruct (minutes >? 0); [|done].
  cbn. congruence.
Qed.

Lemma serve_last_session_id foreign_keys clk c db :
  last_session_id db ≤ last_session_id (snd (serve foreign_keys clk c db)).
Proof.
  destruct c; cbn [serve].
  - unfold add_category, execute_insert_category.
    destruct (existsb _ _); cbn; lia.
  - unfold add_session, insert_session.
    destruct (minutes <=? 0); [cbn; lia|].
    destruct (select_category_id category db); [|cbn; lia].
    destruct (minutes >? 0); [|cbn; lia].
    destruct (String.eqb note ""); cbn; lia.
  - unfold update_session, execute_update.
    destruct (find_session session_id db); [|cbn; lia].
    destruct (build_updates _ _ _ _ _); [cbn; lia|].
    cbn zeta. destruct (forallb _ _); cbn; lia.
  - unfold delete_session. destruct (_ =? 0); cbn; lia.
  - unfold add_note. destruct (find_session session_id db); cbn; lia.
Qed.

Lemma serve_all_last_session_id foreign_keys calls db :
  last_session_id db ≤ last_session_id (serve_all foreign_keys calls db).
Proof.
  revert db. induction calls as [|[clk c] calls IH]; intros db; [done|].
  etrans; [apply (serve_last_session_id foreign_keys clk c)|]. apply IH.
Qed.

(** X21. The id of a session is never handed out again: in a consistent
    database, whatever calls are served after a session was stored,
    deletions of that session included, the id a later [add_session]
    returns is greater than the id of that session. *)
Theorem session_ids_never_reused
    foreign_keys calls clk activity minutes category session_date note db row i :
  consistent db →
  row ∈ sessions db →
  field "id"
    (fst (add_session clk activity minutes category session_date note
            (serve_all foreign_keys calls db)))
  = Some (VInt i) →
  ses_id row < i.
Proof.
  intros Hdb Hrow ->%add_session_id.
  pose proof (proj1 (Forall_forall _ _) (session_ids_issued db Hdb) row Hrow)
    as Hissued.
  pose proof (serve_all_last_session_id foreign_keys calls db). simpl in *. lia.
Qed.

Lemma session_ids_never_reused_witness :
  ses_id {| ses_id := 1; ses_activity := "Math homework"; ses_minutes := 90;
            ses_category_id := 2; ses_date := "2026-01-05";
            ses_created_at := "2026-01-05 12:00:00" |}
  < 2.
Proof.
  apply (session_ids_never_reused false [(noon, DeleteSession 1)] noon
           "Reading" 20 "Reading" None ""
           (snd (add_session noon "Math homework" 90 "Study" None ""
                   (init_db noon)))
           {| ses_id := 1; ses_activity := "Math homework"; ses_minutes := 90;
              ses_category_id := 2; ses_date := "2026-01-05";
              ses_created_at := "2026-01-05 12:00:00" |} 2).
  - apply one_session_consistent.
  - vm_compute. apply list_elem_of_here.
  - vm_compute. reflexivity.
Defined.

(** *** list_categories and init_db *)

#[local] Instance name_le_total : Total name_le.
Proof. intros r1 r2. apply String.leb_total. Qed.

(** X22. [list_categories] returns one dict per stored category, each
    category once, in an order in which the name of every row is at most
    the name of the next one. *)
Theorem list_categories_sorted db :
  ∃ rows,
    list_categories db = category_dict <$> rows
    ∧ rows ≡ₚ categories db
    ∧ Sorted name_le rows.
Proof.
  exists (merge_sort name_le (categories db)). split; [done|]. split.
  - apply merge_sort_Permutation.
  - apply (Sorted_merge_sort name_le).
Qed.

Lemma init_db_on_stores clk db :
  categories db = [] → categories (init_db_on clk db) ≠ [].
Proof.
  intros Hempty. unfold init_db_on. rewrite Hempty.
  change (Z.of_nat (length []) =? 0) with true. cbn.
  intros Hnil. by apply app_eq_nil in Hnil as [_ ?].
Qed.

Example init_db_on_empty clk : init_db_on clk empty_db = init_db clk.
Proof. reflexivity. Qed.

Lemma init_db_on_keeps clk db : categories db ≠ [] → init_db_on clk db = db.
Proof. unfold init_db_on. by destruct (categories db). Qed.

(** X23. Running [init_db] again changes nothing: on a database with at
    least one category it stores nothing, whatever the categories are, and
    on any database a second run leaves what the first run left, so the
    default categories are never stored twice. *)
Theorem init_db_on_idempotent clk clk' db :
  (categories db ≠ [] → init_db_on clk db = db)
  ∧ init_db_on clk' (init_db_on clk db) = init_db_on clk db.
Proof.
  split; [apply init_db_on_keeps|].
  destruct (categories db) as [|row rows] eqn:Hcats.
  - apply init_db_on_keeps. by apply init_db_on_stores.
  - rewrite (init_db_on_keeps clk db) by (by rewrite Hcats).
    apply init_db_on_keeps. by rewrite Hcats.
Qed.

End TrackerProps.

(** ** The calculator *)

Module CalculatorProps.

Import Calculator.

(** X8. [modulus] raises [ValueError] exactly for the divisor zero; for
    any other divisor it returns a remainder that differs from the
    dividend by a multiple of the divisor and has the sign of the divisor:
    from zero up to, not including, a positive divisor, and from, not
    including, a negative divisor up to zero. *)
Theorem modulus_sign a b :
  (b = 0 → modulus a b = inl (ValueError "Modulus by zero is not allowed"))
  ∧ (b ≠ 0 →
     ∃ r,
       modulus a b = inr r
       ∧ (∃ q, a = q * b + r)
       ∧ (0 < b → 0 ≤ r < b)
       ∧ (b < 0 → b < r ≤ 0)).
Proof.
  unfold modulus. split.
  - by intros ->.
  - intros Hb. destruct (Z.eqb_spec b 0) as [|_]; [done|].
    exists (a mod b). split; [done|]. split; [|split].
    + exists (a / b). rewrite Z.mul_comm. by apply Z.div_mod.
    + intros Hpos. by apply Z.mod_pos_bound.
    + intros Hneg. by apply Z.mod_neg_bound.
Qed.

End CalculatorProps.
